(** * ConvertCSVtoSQL: a shallow embedding of the listening-history importer

    Source: [src/main/java/utils/ConvertCSVtoSQL.py].

    The script opens one PostgreSQL connection and one cursor, iterates the
    rows that [csv.reader] yields for the input file and, per row, unpacks
    five fields, parses the timestamp with [datetime.strptime], looks up or
    inserts the artist, looks up or inserts the song, and inserts one
    listening-history row.  After the loop it commits, closes cursor and
    connection and prints a message.

    Text is modelled as [string] whose characters are code points below 256.
    The three library calls the script depends on are modelled after CPython
    3.11 ([csv.reader] with the default dialect, [datetime.strptime] with
    the one format string of the script) and PostgreSQL (the five SQL
    statements of the script). *)

From Stdlib Require Import List String Ascii ZArith Bool Lia.
Import ListNotations.
Open Scope string_scope.
Open Scope Z_scope.

(** ** Characters *)

Definition code (c : ascii) : Z := Z.of_nat (nat_of_ascii c).

Definition is_digit (c : ascii) : bool := (48 <=? code c) && (code c <=? 57).

Definition digit_value (c : ascii) : Z := code c - 48.

Definition in_range (lo hi c : ascii) : bool :=
  (code lo <=? code c) && (code c <=? code hi).

(** [\s] of a [str] pattern: the code points below 256 for which
    [str.isspace] holds. *)
Definition is_space (c : ascii) : bool :=
  let n := code c in
  ((9 <=? n) && (n <=? 13)) || ((28 <=? n) && (n <=? 32))
  || (n =? 133) || (n =? 160).

Definition lower (c : ascii) : ascii :=
  if (65 <=? code c) && (code c <=? 90)
  then ascii_of_nat (nat_of_ascii c + 32) else c.

(** ** datetime.strptime(date_time_str, "%B %d, %Y at %I:%M%p") *)

Module Strptime.

Record datetime := mk_datetime {
  year : Z; month : Z; day : Z; hour : Z; minute : Z; second : Z
}.

Definition datetime_eqb (a b : datetime) : bool :=
  (year a =? year b) && (month a =? month b) && (day a =? day b)
  && (hour a =? hour b) && (minute a =? minute b) && (second a =? second b).

(** The fields that the regular expression of the format captures. *)
Record found := mk_found {
  found_B : Z;        (* month number, 1..12 *)
  found_d : Z;
  found_Y : Z;
  found_I : Z;
  found_M : Z;
  found_p : bool      (* true for pm *)
}.

(** A matcher consumes a prefix of the text and hands the rest to its
    continuation; [None] makes the caller try its next alternative, which
    is how the backtracking of [re.match] is rendered. *)
Definition matcher (A : Type) := string -> option A.

Definition orelse {A} (p q : matcher A) : matcher A :=
  fun s => match p s with Some r => Some r | None => q s end.

Fixpoint first_of {A} (ps : list (matcher A)) : matcher A :=
  match ps with
  | [] => fun _ => None
  | p :: ps' => orelse p (first_of ps')
  end.

(** One character satisfying [ok]. *)
Definition one {A} (ok : ascii -> bool) (k : ascii -> matcher A) : matcher A :=
  fun s => match s with
           | String c s' => if ok c then k c s' else None
           | EmptyString => None
           end.

(** A literal character; the pattern is compiled with [re.IGNORECASE]. *)
Definition lit {A} (c : ascii) (k : matcher A) : matcher A :=
  one (fun x => Ascii.eqb (lower x) (lower c)) (fun _ => k).

Fixpoint word {A} (w : string) (k : matcher A) : matcher A :=
  match w with
  | EmptyString => k
  | String c w' => lit c (word w' k)
  end.

(** [\s*] and [\s+], greedy, giving characters back on failure. *)
Fixpoint spaces0 {A} (k : matcher A) (s : string) : option A :=
  match s with
  | String c s' =>
      if is_space c
      then match spaces0 k s' with Some r => Some r | None => k s end
      else k s
  | EmptyString => k s
  end.

Definition spaces1 {A} (k : matcher A) : matcher A :=
  one is_space (fun _ => spaces0 k).

Definition exactly (c : ascii) : ascii -> bool := Ascii.eqb c.

(** Two characters read as a two-digit number. *)
Definition two {A} (ok1 ok2 : ascii -> bool) (k : Z -> matcher A) : matcher A :=
  one ok1 (fun a => one ok2 (fun b => k (10 * digit_value a + digit_value b))).

Definition month_names : list string :=
  ["january"; "february"; "march"; "april"; "may"; "june"; "july";
   "august"; "september"; "october"; "november"; "december"].

(** [%B]: the full month names of the C locale.  No name is a prefix of
    another, so the order of the alternatives does not matter. *)
Fixpoint directive_B_from {A} (n : Z) (names : list string)
    (k : Z -> matcher A) : matcher A :=
  match names with
  | [] => fun _ => None
  | w :: names' => orelse (word w (k n)) (directive_B_from (n + 1) names' k)
  end.

Definition directive_B {A} : (Z -> matcher A) -> matcher A :=
  directive_B_from 1 month_names.

(** [%d]: [3[0-1]|[1-2]\d|0[1-9]|[1-9]| [1-9]]. *)
Definition directive_d {A} (k : Z -> matcher A) : matcher A :=
  first_of
    [ two (exactly "3") (in_range "0" "1") k;
      two (in_range "1" "2") is_digit k;
      two (exactly "0") (in_range "1" "9") k;
      one (in_range "1" "9") (fun a => k (digit_value a));
      lit " " (one (in_range "1" "9") (fun a => k (digit_value a))) ].

(** [%Y]: [\d\d\d\d]. *)
Definition directive_Y {A} (k : Z -> matcher A) : matcher A :=
  two is_digit is_digit (fun hi => two is_digit is_digit (fun lo => k (100 * hi + lo))).

(** [%I]: [1[0-2]|0[1-9]|[1-9]| [1-9]]. *)
Definition directive_I {A} (k : Z -> matcher A) : matcher A :=
  first_of
    [ two (exactly "1") (in_range "0" "2") k;
      two (exactly "0") (in_range "1" "9") k;
      one (in_range "1" "9") (fun a => k (digit_value a));
      lit " " (one (in_range "1" "9") (fun a => k (digit_value a))) ].

(** [%M]: [[0-5]\d|\d]. *)
Definition directive_M {A} (k : Z -> matcher A) : matcher A :=
  first_of
    [ two (in_range "0" "5") is_digit k;
      one is_digit (fun a => k (digit_value a)) ].

(** [%p]: [am|pm]. *)
Definition directive_p {A} (k : bool -> matcher A) : matcher A :=
  orelse (word "am" (k false)) (word "pm" (k true)).

(** The regular expression of ["%B %d, %Y at %I:%M%p"]: every run of
    white space of the format becomes [\s+].  The continuation [k] receives
    the captured fields and the text left after the match. *)
Definition format_regex {A} (k : found -> matcher A) : matcher A :=
  directive_B (fun B =>
  spaces1 (directive_d (fun d =>
  lit "," (spaces1 (directive_Y (fun Y =>
  spaces1 (word "at" (spaces1 (directive_I (fun I =>
  lit ":" (directive_M (fun M =>
  directive_p (fun p => k (mk_found B d Y I M p)))))))))))))).

(** [format_regex.match(data_string)]: the first match in priority order,
    wherever it ends. *)
Definition regex_match (data_string : string) : option (found * string) :=
  format_regex (fun f rest => Some (f, rest)) data_string.

Definition is_leap (y : Z) : bool :=
  (y mod 4 =? 0) && (negb (y mod 100 =? 0) || (y mod 400 =? 0)).

Definition days_in_month (y m : Z) : Z :=
  if m =? 2 then (if is_leap y then 29 else 28)
  else if (m =? 4) || (m =? 6) || (m =? 9) || (m =? 11) then 30
  else 31.

(** [datetime.date(year, month, day)] accepts years 1..9999 and the days
    that the month has. *)
Definition valid_date (y m d : Z) : bool :=
  (1 <=? y) && (y <=? 9999) && (1 <=? m) && (m <=? 12)
  && (1 <=? d) && (d <=? days_in_month y m).

(** 12-hour clock to 24-hour clock. *)
Definition hour24 (I : Z) (pm : bool) : Z :=
  if pm then (if I =? 12 then 12 else I + 12)
  else (if I =? 12 then 0 else I).

(** [None] stands for the [ValueError] that [strptime] raises: no match,
    unconverted data after the match, or a date that does not exist. *)
Definition strptime (data_string : string) : option datetime :=
  match regex_match data_string with
  | Some (f, EmptyString) =>
      if valid_date (found_Y f) (found_B f) (found_d f)
      then Some (mk_datetime (found_Y f) (found_B f) (found_d f)
                             (hour24 (found_I f) (found_p f)) (found_M f) 0)
      else None
  | _ => None
  end.

End Strptime.
Import Strptime.

(** ** Exceptions

    The script catches nothing; whatever is raised ends the run.  The
    constructors carry the names the specification gives to the failures:
    [MalformedRowError] is the [ValueError] of the tuple unpacking,
    [DateParseError] the [ValueError] of [strptime], [DatabaseError] any
    [psycopg2.Error] and [CsvError] is [csv.Error]; [TypeError] and
    [IndexError] are the built-in exceptions of a failed subscript, and
    [NulValueError] is the [ValueError] that psycopg2 raises for a
    parameter it cannot send. *)

Inductive exn :=
| MalformedRowError
| DateParseError
| DatabaseError
| CsvError
| TypeError      (* subscripting [None] *)
| IndexError     (* subscripting a tuple out of range *)
| NulValueError. (* the [ValueError] of psycopg2 for a [str] parameter that
                    holds a NUL character *)

Definition exn_eqb (a b : exn) : bool :=
  match a, b with
  | MalformedRowError, MalformedRowError
  | DateParseError, DateParseError
  | DatabaseError, DatabaseError
  | CsvError, CsvError
  | TypeError, TypeError
  | IndexError, IndexError
  | NulValueError, NulValueError => true
  | _, _ => false
  end.

(** ** csv.reader(file), default dialect

    delimiter [,], quotechar the double quote, doublequote on, no
    escapechar, skipinitialspace off, QUOTE_MINIMAL, not strict.  The
    states [ESCAPED_CHAR], [ESCAPE_IN_QUOTED_FIELD] and
    [AFTER_ESCAPED_CRNL] of the C implementation need an escapechar and are
    left out. *)

Module Csv.

Inductive ParserState :=
| START_RECORD | START_FIELD | IN_FIELD | IN_QUOTED_FIELD
| QUOTE_IN_QUOTED_FIELD | EAT_CRNL.

Record Reader := mk_Reader {
  state : ParserState;
  fields : list string;   (* the fields saved for the current record *)
  field : string          (* the characters of the field being read *)
}.

Definition delimiter : ascii := ",".
Definition quotechar : ascii := "034".
Definition LF : ascii := "010".
Definition CR : ascii := "013".

(** [csv.field_size_limit()] *)
Definition field_limit : Z := 131072.

Definition is_newline (c : ascii) : bool := Ascii.eqb c LF || Ascii.eqb c CR.

Definition field_len (self : Reader) : Z := Z.of_nat (String.length (field self)).

Definition set_state (s : ParserState) (self : Reader) : Reader :=
  mk_Reader s (fields self) (field self).

(** [None] is the [csv.Error] for a field larger than the field limit. *)
Definition parse_add_char (self : Reader) (c : ascii) : option Reader :=
  if field_limit <=? field_len self then None
  else Some (mk_Reader (state self) (fields self)
                       (field self ++ String c EmptyString)).

Definition parse_save_field (self : Reader) : Reader :=
  mk_Reader (state self) (fields self ++ [field self]) EmptyString.

Definition parse_reset (self : Reader) : Reader :=
  mk_Reader START_RECORD [] EmptyString.

Definition new_reader : Reader := mk_Reader START_RECORD [] EmptyString.

Definition end_of_line (c : option ascii) : bool :=
  match c with None => true | Some ch => is_newline ch end.

Definition state_after_line (c : option ascii) : ParserState :=
  match c with None => START_RECORD | Some _ => EAT_CRNL end.

(** [parse_process_char]; [c = None] is the end-of-line mark that the
    reader feeds after the last character of every line. *)
Definition parse_process_char (self : Reader) (c : option ascii) : option Reader :=
  let expecting_field (self : Reader) :=
    match c with
    | None => Some (set_state START_RECORD (parse_save_field self))
    | Some ch =>
        if is_newline ch then Some (set_state EAT_CRNL (parse_save_field self))
        else if Ascii.eqb ch quotechar then Some (set_state IN_QUOTED_FIELD self)
        else if Ascii.eqb ch delimiter then Some (parse_save_field self)
        else option_map (set_state IN_FIELD) (parse_add_char self ch)
    end in
  match state self with
  | START_RECORD =>
      match c with
      | None => Some self
      | Some ch =>
          if is_newline ch then Some (set_state EAT_CRNL self)
          else expecting_field (set_state START_FIELD self)
      end
  | START_FIELD => expecting_field self
  | IN_FIELD =>
      if end_of_line c
      then Some (set_state (state_after_line c) (parse_save_field self))
      else match c with
           | None => Some self
           | Some ch =>
               if Ascii.eqb ch delimiter
               then Some (set_state START_FIELD (parse_save_field self))
               else parse_add_char self ch
           end
  | IN_QUOTED_FIELD =>
      match c with
      | None => Some self
      | Some ch =>
          if Ascii.eqb ch quotechar
          then Some (set_state QUOTE_IN_QUOTED_FIELD self)
          else parse_add_char self ch
      end
  | QUOTE_IN_QUOTED_FIELD =>
      match c with
      | None => Some (set_state START_RECORD (parse_save_field self))
      | Some ch =>
          if Ascii.eqb ch quotechar
          then option_map (set_state IN_QUOTED_FIELD) (parse_add_char self ch)
          else if Ascii.eqb ch delimiter
          then Some (set_state START_FIELD (parse_save_field self))
          else if is_newline ch
          then Some (set_state EAT_CRNL (parse_save_field self))
          else option_map (set_state IN_FIELD) (parse_add_char self ch)
      end
  | EAT_CRNL =>
      match c with
      | None => Some (set_state START_RECORD self)
      | Some ch => if is_newline ch then Some self else None
      end
  end.

(** The characters of one line, then the end-of-line mark. *)
Fixpoint parse_line (self : Reader) (line : string) : option Reader :=
  match line with
  | EmptyString => parse_process_char self None
  | String c line' =>
      match parse_process_char self (Some c) with
      | Some self' => parse_line self' line'
      | None => None
      end
  end.

(** What iterating the reader yields, in order: [inr row] for a record,
    [inl CsvError] where [Reader_iternext] raises (nothing follows it, the
    exception leaves the loop).  A record ends with the line after which
    the state is back to [START_RECORD]; a line that ends inside a quoted
    field is continued by the next one.  At the end of the input a record
    left open is returned as it stands. *)
Fixpoint iterate (self : Reader) (lines : list string) : list (exn + list string) :=
  match lines with
  | [] =>
      if negb (field_len self =? 0)
         || match state self with IN_QUOTED_FIELD => true | _ => false end
      then [inr (fields (parse_save_field self))]
      else []
  | line :: lines' =>
      match parse_line self line with
      | None => [inl CsvError]
      | Some self' =>
          match state self' with
          | START_RECORD => inr (fields self') :: iterate (parse_reset self') lines'
          | _ => iterate self' lines'
          end
      end
  end.

Definition reader (lines : list string) : list (exn + list string) :=
  iterate new_reader lines.

End Csv.

(** ** The database

    Three tables, created outside this repository.  Rows are kept in
    insertion order; a query returns its rows in that order.  The model
    checks the shape of a statement (table, columns, number and types of
    the values), gives the ids of artists and songs from a sequence that
    has a maximum, and refuses a second row of one id in these two tables
    (their [id] is the primary key).  Text columns take a string of any
    length.  The model has no foreign-key constraint and no uniqueness
    constraint on names or spotify_ids, so what the properties below say
    about references and about keys comes from the script alone. *)

Inductive value :=
| VInt (n : Z)
| VStr (s : string)
| VDatetime (d : datetime).

Definition value_eqb (a b : value) : bool :=
  match a, b with
  | VInt x, VInt y => x =? y
  | VStr x, VStr y => String.eqb x y
  | VDatetime x, VDatetime y => datetime_eqb x y
  | _, _ => false
  end.

Record Artist := mk_Artist {
  artist_id : Z;
  artist_name : string
}.

Record Song := mk_Song {
  song_id : Z;
  song_name : string;
  song_artist_id : Z;
  song_spotify_id : string;
  song_link : string
}.

Record ListeningHistoryEntry := mk_ListeningHistoryEntry {
  entry_user_id : Z;
  entry_song_id : Z;
  entry_date_listened : datetime;
  entry_listening_time : option Z
}.

Record Tables := mk_Tables {
  artists : list Artist;
  songs : list Song;
  user_listening_history : list ListeningHistoryEntry
}.

(** What the server holds between transactions: the committed rows and the
    two id sequences, each with the last value it gave and the maximum the
    schema lets it reach.  A sequence is advanced outside any transaction:
    a rollback does not take the advance back.  At its maximum a sequence
    gives no further value and the INSERT that asks for one fails. *)
Record Server := mk_Server {
  data : Tables;
  artists_id_seq : Z;
  songs_id_seq : Z;
  artists_id_max : Z;
  songs_id_max : Z
}.

(** SQL statements with their parameters already bound: the [%s] of the
    query text are replaced, in order, by the elements of the tuple passed
    to [cur.execute].  [INSERT_INTO t cols vals r] is
    [INSERT INTO t (cols) VALUES (vals)], with [RETURNING id] when [r]. *)
Inductive statement :=
| SELECT_id_FROM (table : string) (where_column : string) (param : value)
| INSERT_INTO (table : string) (columns : list string) (values : list value)
              (returning_id : bool).

Definition result_set := list (list value).

(** Modelled from the spec: the columns of the three tables (section 6 of
    the specification; the schema is created outside this repository).
    [id] is generated by the table's sequence. *)
Definition artists_columns : list string := ["name"].
Definition songs_columns : list string := ["name"; "artist_id"; "spotify_id"; "link"].
Definition user_listening_history_columns : list string :=
  ["user_id"; "song_id"; "date_listened"; "listening_time"].

Definition mem (c : string) (cs : list string) : bool := existsb (String.eqb c) cs.

Fixpoint lookup (c : string) (b : list (string * value)) : option value :=
  match b with
  | [] => None
  | (c', v) :: b' => if String.eqb c c' then Some v else lookup c b'
  end.

(** The target columns paired with the value expressions.  PostgreSQL
    rejects an INSERT whose column list and VALUES list differ in length
    ("INSERT has more target columns than expressions", "INSERT has more
    expressions than target columns") and one that names a column the table
    does not have. *)
Definition bind (known columns : list string) (values : list value)
  : option (list (string * value)) :=
  if Nat.eqb (List.length columns) (List.length values)
     && forallb (fun c => mem c known) columns
  then Some (combine columns values)
  else None.

(** ** The running script

    [server] is what the database holds durably, [txn] the rows as the
    connection's open transaction sees them (psycopg2 opens the transaction
    with the first statement and keeps it open until [conn.commit()]).
    When the process ends, whatever [txn] holds beyond [server] is lost.
    [txn_failed] is set once the server has answered a statement of the
    transaction with an error: PostgreSQL then refuses every further
    statement until the transaction is ended, and ends it by a rollback.
    [commits] counts the calls of [conn.commit()] that committed. *)

Record Process := mk_Process {
  server : Server;
  txn : Tables;
  txn_failed : bool;
  cur_open : bool;
  conn_open : bool;
  file_open : bool;
  commits : nat;
  stdout : list string
}.

Inductive result (A : Type) :=
| Ok (a : A)
| Raise (e : exn).
Arguments Ok {A} a.
Arguments Raise {A} e.

(** Statements run in order on the process state; an exception stops the
    sequence and keeps the state reached so far. *)
Definition M (A : Type) := Process -> result A * Process.

Definition ret {A} (a : A) : M A := fun p => (Ok a, p).

Definition raise {A} (e : exn) : M A := fun p => (Raise e, p).

Definition bind_M {A B} (m : M A) (f : A -> M B) : M B :=
  fun p => match m p with
           | (Ok a, p') => f a p'
           | (Raise e, p') => (Raise e, p')
           end.

Definition lift {A} (r : result A) : M A := fun p => (r, p).

Declare Scope script_scope.
Delimit Scope script_scope with script.
Notation "x <- m ;; k" := (bind_M m (fun x => k))
  (at level 100, m at next level, right associativity) : script_scope.
Notation "m ;; k" := (bind_M m (fun _ => k))
  (at level 100, right associativity) : script_scope.
Open Scope script_scope.

Definition with_txn (t : Tables) (p : Process) : Process :=
  mk_Process (server p) t (txn_failed p) (cur_open p) (conn_open p)
             (file_open p) (commits p) (stdout p).

Definition with_server (s : Server) (p : Process) : Process :=
  mk_Process s (txn p) (txn_failed p) (cur_open p) (conn_open p)
             (file_open p) (commits p) (stdout p).

Definition with_file_open (b : bool) (p : Process) : Process :=
  mk_Process (server p) (txn p) (txn_failed p) (cur_open p) (conn_open p) b
             (commits p) (stdout p).

(** The server has answered a statement with an error. *)
Definition fail_txn (p : Process) : Process :=
  mk_Process (server p) (txn p) true (cur_open p) (conn_open p)
             (file_open p) (commits p) (stdout p).

(** *** SELECT *)

Definition artist_column (c : string) (a : Artist) : option value :=
  if String.eqb c "id" then Some (VInt (artist_id a))
  else if String.eqb c "name" then Some (VStr (artist_name a))
  else None.

Definition song_column (c : string) (s : Song) : option value :=
  if String.eqb c "id" then Some (VInt (song_id s))
  else if String.eqb c "name" then Some (VStr (song_name s))
  else if String.eqb c "artist_id" then Some (VInt (song_artist_id s))
  else if String.eqb c "spotify_id" then Some (VStr (song_spotify_id s))
  else if String.eqb c "link" then Some (VStr (song_link s))
  else None.

Definition matches {R} (column : string -> R -> option value)
    (c : string) (v : value) (r : R) : bool :=
  match column c r with
  | Some v' => value_eqb v' v
  | None => false
  end.

(** [SELECT id FROM t WHERE c = v]: one single-column row per matching row
    of the table. *)
Definition select_id {R} (column : string -> R -> option value) (id : R -> Z)
    (known : list string) (c : string) (v : value) (rows : list R)
  : result result_set :=
  if mem c ("id" :: known)
  then Ok (map (fun r => [VInt (id r)]) (filter (matches column c v) rows))
  else Raise DatabaseError.

Definition select (table c : string) (v : value) (t : Tables) : result result_set :=
  if String.eqb table "artists"
  then select_id artist_column artist_id artists_columns c v (artists t)
  else if String.eqb table "songs"
  then select_id song_column song_id songs_columns c v (songs t)
  else Raise DatabaseError.

(** *** INSERT

    The id of a new artist or song is the next value of the table's
    sequence.  The sequence gives none beyond its maximum; a value it has
    given stays given, also when the row is then refused because a row of
    the table has that id already. *)

Definition returning (r : bool) (id : Z) : result_set :=
  if r then [[VInt id]] else [].

Definition insert_artist (columns : list string) (values : list value)
    (r : bool) : M result_set := fun p =>
  match bind artists_columns columns values with
  | Some b =>
      match lookup "name" b with
      | Some (VStr name) =>
          let id := artists_id_seq (server p) + 1 in
          let s := server p in
          let t := txn p in
          if id <=? artists_id_max s
          then
            let p' := with_server (mk_Server (data s) id (songs_id_seq s)
                                     (artists_id_max s) (songs_id_max s)) p in
            if existsb (fun a => artist_id a =? id) (artists t)
            then (Raise DatabaseError, p')   (* duplicate key *)
            else
              (Ok (returning r id),
               with_txn (mk_Tables (artists t ++ [mk_Artist id name]) (songs t)
                                   (user_listening_history t)) p')
          else (Raise DatabaseError, p)      (* sequence at its maximum *)
      | _ => (Raise DatabaseError, p)
      end
  | None => (Raise DatabaseError, p)
  end.

Definition insert_song (columns : list string) (values : list value)
    (r : bool) : M result_set := fun p =>
  match bind songs_columns columns values with
  | Some b =>
      match lookup "name" b, lookup "artist_id" b,
            lookup "spotify_id" b, lookup "link" b with
      | Some (VStr name), Some (VInt artist), Some (VStr spotify), Some (VStr link) =>
          let id := songs_id_seq (server p) + 1 in
          let s := server p in
          let t := txn p in
          if id <=? songs_id_max s
          then
            let p' := with_server (mk_Server (data s) (artists_id_seq s) id
                                     (artists_id_max s) (songs_id_max s)) p in
            if existsb (fun x => song_id x =? id) (songs t)
            then (Raise DatabaseError, p')   (* duplicate key *)
            else
              (Ok (returning r id),
               with_txn (mk_Tables (artists t)
                           (songs t ++ [mk_Song id name artist spotify link])
                           (user_listening_history t)) p')
          else (Raise DatabaseError, p)      (* sequence at its maximum *)
      | _, _, _, _ => (Raise DatabaseError, p)
      end
  | None => (Raise DatabaseError, p)
  end.

Definition insert_history (columns : list string) (values : list value)
    (r : bool) : M result_set := fun p =>
  match bind user_listening_history_columns columns values with
  | Some b =>
      match lookup "user_id" b, lookup "song_id" b, lookup "date_listened" b with
      | Some (VInt user), Some (VInt song), Some (VDatetime date) =>
          let t := txn p in
          let add (time : option Z) :=
            (Ok [],
             with_txn (mk_Tables (artists t) (songs t)
                         (user_listening_history t
                          ++ [mk_ListeningHistoryEntry user song date time])) p) in
          if r then (Raise DatabaseError, p)   (* the table has no id *)
          else match lookup "listening_time" b with
               | None => add None
               | Some (VInt time) => add (Some time)
               | Some _ => (Raise DatabaseError, p)
               end
      | _, _, _ => (Raise DatabaseError, p)
      end
  | None => (Raise DatabaseError, p)
  end.

(** What the server does with a statement it receives. *)
Definition server_execute (q : statement) : M result_set := fun p =>
  match q with
  | SELECT_id_FROM table c v => (select table c v (txn p), p)
  | INSERT_INTO table columns values r =>
      if String.eqb table "artists" then insert_artist columns values r p
      else if String.eqb table "songs" then insert_song columns values r p
      else if String.eqb table "user_listening_history"
      then insert_history columns values r p
      else (Raise DatabaseError, p)
  end.

Fixpoint has_nul (s : string) : bool :=
  match s with
  | EmptyString => false
  | String c s' => Ascii.eqb c "000" || has_nul s'
  end.

(** psycopg2 turns every parameter into an SQL literal before it sends the
    statement; a [str] that holds a NUL character cannot be one. *)
Definition adaptable (v : value) : bool :=
  match v with
  | VStr s => negb (has_nul s)
  | _ => true
  end.

Definition parameters (q : statement) : list value :=
  match q with
  | SELECT_id_FROM _ _ param => [param]
  | INSERT_INTO _ _ values _ => values
  end.

(** [cur.execute(query, params)]: a closed cursor or connection raises at
    once; then the parameters are adapted, and a parameter that cannot be
    raises [ValueError] before anything is sent; then the server runs the
    statement, or refuses it when an earlier statement of the transaction
    failed. *)
Definition cur_execute (q : statement) : M result_set := fun p =>
  if cur_open p && conn_open p then
    if forallb adaptable (parameters q) then
      if txn_failed p then (Raise DatabaseError, p)
      else match server_execute q p with
           | (Ok rs, p') => (Ok rs, p')
           | (Raise e, p') => (Raise e, fail_txn p')
           end
    else (Raise NulValueError, p)
  else (Raise DatabaseError, p).

(** [cur.fetchone()]: the first row of the result, or [None]. *)
Definition fetchone (rs : result_set) : option (list value) := hd_error rs.

(** [t[0]] *)
Definition item0 (t : list value) : result value :=
  match t with
  | v :: _ => Ok v
  | [] => Raise IndexError
  end.

(** [cur.fetchone()[0]] *)
Definition fetchone_item0 (rs : result_set) : result value :=
  match fetchone rs with
  | Some t => item0 t
  | None => Raise TypeError
  end.

(** [conn.commit()]; on a failed transaction the server answers the
    COMMIT with a rollback, and nothing is raised. *)
Definition conn_commit : M unit := fun p =>
  if conn_open p
  then if txn_failed p
       then (Ok tt,
             mk_Process (server p) (data (server p)) false (cur_open p)
                        (conn_open p) (file_open p) (commits p) (stdout p))
       else (Ok tt,
             mk_Process (mk_Server (txn p) (artists_id_seq (server p))
                                   (songs_id_seq (server p))
                                   (artists_id_max (server p))
                                   (songs_id_max (server p)))
                        (txn p) false (cur_open p) (conn_open p) (file_open p)
                        (S (commits p)) (stdout p))
  else (Raise DatabaseError, p).

Definition cur_close : M unit := fun p =>
  (Ok tt, mk_Process (server p) (txn p) (txn_failed p) false (conn_open p)
                     (file_open p) (commits p) (stdout p)).

(** Closing the connection ends its transaction; what was not committed is
    rolled back. *)
Definition conn_close : M unit := fun p =>
  (Ok tt, mk_Process (server p) (data (server p)) false (cur_open p) false
                     (file_open p) (commits p) (stdout p)).

Definition print (line : string) : M unit := fun p =>
  (Ok tt, mk_Process (server p) (txn p) (txn_failed p) (cur_open p)
                     (conn_open p) (file_open p) (commits p)
                     (stdout p ++ [line])).

(** [with open(csv_file, ...) as file: body]: the file is closed when the
    block is left, also by an exception. *)
Definition with_open {A} (body : M A) : M A := fun p =>
  match body (with_file_open true p) with
  | (r, p') => (r, with_file_open false p')
  end.

(** *** The loop body, block by block (lines 22 to 55 of the script) *)

(** [date_time_str, song_name, artist_name, spotify_id, link = row] *)
Definition unpack (row : list string)
  : result (string * string * string * string * string) :=
  match row with
  | [date_time_str; song_name; artist_name; spotify_id; link] =>
      Ok (date_time_str, song_name, artist_name, spotify_id, link)
  | _ => Raise MalformedRowError
  end.

(** [datetime.strptime(date_time_str, "%B %d, %Y at %I:%M%p")] *)
Definition convert_date (date_time_str : string) : result datetime :=
  match strptime date_time_str with
  | Some date_time => Ok date_time
  | None => Raise DateParseError
  end.

(** "Insert artist (if not exists)" *)
Definition insert_artist_if_not_exists (artist_name : string) : M value :=
  rs <- cur_execute (SELECT_id_FROM "artists" "name" (VStr artist_name)) ;;
  match fetchone rs with
  | None =>
      rs' <- cur_execute (INSERT_INTO "artists" ["name"] [VStr artist_name] true) ;;
      lift (fetchone_item0 rs')
  | Some artist_id => lift (item0 artist_id)
  end.

(** "Insert song (if not exists)" *)
Definition insert_song_if_not_exists (song_name : string) (artist_id : value)
    (spotify_id link : string) : M value :=
  rs <- cur_execute (SELECT_id_FROM "songs" "spotify_id" (VStr spotify_id)) ;;
  match fetchone rs with
  | None =>
      rs' <- cur_execute
               (INSERT_INTO "songs" ["name"; "artist_id"; "spotify_id"; "link"]
                  [VStr song_name; artist_id; VStr spotify_id; VStr link] true) ;;
      lift (fetchone_item0 rs')
  | Some song_id => lift (item0 song_id)
  end.

(** "Insert listening history": four target columns, three [%s] and a tuple
    of three parameters. *)
Definition insert_listening_history (song_id : value) (date_time : datetime)
  : M unit :=
  cur_execute
    (INSERT_INTO "user_listening_history"
       ["user_id"; "song_id"; "date_listened"; "listening_time"]
       [VInt 1; song_id; VDatetime date_time] false) ;;
  ret tt.

Definition process_row (row : list string) : M unit :=
  fields <- lift (unpack row) ;;
  let '(date_time_str, song_name, artist_name, spotify_id, link) := fields in
  date_time <- lift (convert_date date_time_str) ;;
  artist_id <- insert_artist_if_not_exists artist_name ;;
  song_id <- insert_song_if_not_exists song_name artist_id spotify_id link ;;
  insert_listening_history song_id date_time.

(** [for row in reader: ...] over what the reader yields. *)
Fixpoint for_each_row (items : list (exn + list string)) : M unit :=
  match items with
  | [] => ret tt
  | inl e :: _ => raise e
  | inr row :: items' => process_row row ;; for_each_row items'
  end.

(** The script from the [with] statement to its last line. *)
Definition script (lines : list string) : M unit :=
  with_open (for_each_row (Csv.reader lines)) ;;
  conn_commit ;;
  cur_close ;;
  conn_close ;;
  print "Data imported successfully!".

(** [psycopg2.connect(...)] and [conn.cursor()] on a reachable server. *)
Definition connect (s : Server) : Process :=
  mk_Process s (data s) false true true false 0 [].

(** One run of the program on the lines of the input file: the exception
    it ends with, if any, and the process state at its end. *)
Definition main (lines : list string) (s : Server) : result unit * Process :=
  script lines (connect s).

Definition raised (o : result unit * Process) : option exn :=
  match fst o with Ok _ => None | Raise e => Some e end.

(** What the database holds once the process is gone. *)
Definition server_after (o : result unit * Process) : Server := server (snd o).

Definition empty_tables : Tables := mk_Tables [] [] [].
(** An empty database whose ids are of type [serial]. *)
Definition empty_server : Server :=
  mk_Server empty_tables 0 0 2147483647 2147483647.

Definition newline : string := String Csv.LF EmptyString.

(** * Vocabulary of the properties *)

Definition handles_open (p : Process) : bool := cur_open p && conn_open p.

Definition by_name (name : string) (a : Artist) : bool :=
  String.eqb (artist_name a) name.

Definition by_spotify_id (spotify_id : string) (s : Song) : bool :=
  String.eqb (song_spotify_id s) spotify_id.

(** The state after one row was appended to [artists], resp. [songs]. *)
Definition add_artist (a : Artist) (p : Process) : Process :=
  mk_Process
    (mk_Server (data (server p)) (artist_id a) (songs_id_seq (server p))
               (artists_id_max (server p)) (songs_id_max (server p)))
    (mk_Tables (artists (txn p) ++ [a]) (songs (txn p))
               (user_listening_history (txn p)))
    (txn_failed p) (cur_open p) (conn_open p) (file_open p) (commits p) (stdout p).

Definition add_song (s : Song) (p : Process) : Process :=
  mk_Process
    (mk_Server (data (server p)) (artists_id_seq (server p)) (song_id s)
               (artists_id_max (server p)) (songs_id_max (server p)))
    (mk_Tables (artists (txn p)) (songs (txn p) ++ [s])
               (user_listening_history (txn p)))
    (txn_failed p) (cur_open p) (conn_open p) (file_open p) (commits p) (stdout p).

(** What the loop body and the loop leave alone: the committed rows, the
    handles, the commit count and the output. *)
Definition frame (p p' : Process) : Prop :=
  data (server p') = data (server p)
  /\ cur_open p' = cur_open p /\ conn_open p' = conn_open p
  /\ file_open p' = file_open p /\ commits p' = commits p
  /\ stdout p' = stdout p.

(** The state inside the [with] block before the first row is read. *)
Definition opened (s : Server) : Process := with_file_open true (connect s).

(** A field in double quotes. *)
Definition quoted (body : string) : string :=
  String Csv.quotechar (body ++ String Csv.quotechar EmptyString).

(** The row of the end-to-end example of the specification; the timestamp
    holds a comma, so it stands in double quotes. *)
Definition example_line : string :=
  quoted "January 5, 2024 at 3:45PM"
  ++ ",Song A,Artist X,abc123,http://link" ++ newline.

(** A row whose timestamp is in ISO form, and a row of two fields. *)
Definition iso_line : string :=
  "2024-01-05 15:45,Song A,Artist X,abc123,http://link" ++ newline.

Definition short_line : string := "Song A,Artist X" ++ newline.

(** Two rows with one spotify_id and different names and links. *)
Definition same_spotify_id_lines : list string :=
  [ quoted "January 5, 2024 at 3:45PM"
    ++ ",Song A,Artist X,abc123,http://link" ++ newline;
    quoted "January 5, 2024 at 3:50PM"
    ++ ",Song B,Artist X,abc123,http://other" ++ newline ].

(** Two rows whose artist names differ in case only. *)
Definition drake_lines : list string :=
  [ quoted "January 5, 2024 at 3:45PM"
    ++ ",Song A,Drake,abc123,http://link" ++ newline;
    quoted "January 5, 2024 at 3:50PM"
    ++ ",Song B,drake,def456,http://other" ++ newline ].


Definition artist_exists (t : Tables) (id : Z) : Prop :=
  exists a, In a (artists t) /\ artist_id a = id.

Definition song_exists (t : Tables) (id : Z) : Prop :=
  exists s, In s (songs t) /\ song_id s = id.

(** Every song names an artist of the table, every history entry a song
    of the table. *)
Definition referential_integrity (t : Tables) : Prop :=
  (forall s, In s (songs t) -> artist_exists t (song_artist_id s))
  /\ (forall h, In h (user_listening_history t) ->
                song_exists t (entry_song_id h)).

(** [grows t t']: the tables [t'] come from [t] through insertions of
    single rows at the end of a table, and nothing else: an artist is
    inserted only when no artist of the table has its name at that moment;
    a song only when no song of the table has its spotify_id at that
    moment, and only with the id of an artist that is in the table at that
    moment.  Nothing is inserted into the history table. *)
Inductive grows (t : Tables) : Tables -> Prop :=
| grows_start : grows t t
| grows_artist (t' : Tables) (a : Artist) :
    grows t t' ->
    find (by_name (artist_name a)) (artists t') = None ->
    grows t (mk_Tables (artists t' ++ [a]) (songs t')
                       (user_listening_history t'))
| grows_song (t' : Tables) (s : Song) :
    grows t t' ->
    artist_exists t' (song_artist_id s) ->
    find (by_spotify_id (song_spotify_id s)) (songs t') = None ->
    grows t (mk_Tables (artists t') (songs t' ++ [s])
                       (user_listening_history t')).

(** The specification's words, step 3: "query for an Artist whose name
    exactly equals artist_name.  If none exists, insert one and capture its
    new id; otherwise reuse the found id."  The id used and the tables
    afterwards; [new_id] is the id a new row would get. *)
Definition spec_resolve_artist (artist_name : string) (new_id : Z)
    (t : Tables) : Z * Tables :=
  match find (by_name artist_name) (artists t) with
  | Some a => (artist_id a, t)
  | None =>
      (new_id,
       mk_Tables (artists t ++ [mk_Artist new_id artist_name]) (songs t)
                 (user_listening_history t))
  end.

(** The specification's words, step 4: "query for a Song whose spotify_id
    exactly equals the parsed value.  If none exists, insert a new Song
    using song_name, artist_id, spotify_id, link; otherwise reuse the found
    id". *)
Definition spec_resolve_song (song_name : string) (artist : Z)
    (spotify_id link : string) (new_id : Z) (t : Tables) : Z * Tables :=
  match find (by_spotify_id spotify_id) (songs t) with
  | Some s => (song_id s, t)
  | None =>
      (new_id,
       mk_Tables (artists t)
                 (songs t ++ [mk_Song new_id song_name artist spotify_id link])
                 (user_listening_history t))
  end.


(** Fields as they are written in a line of the file: in double quotes or
    bare. *)
Inductive written_field :=
| Quoted (body : string)
| Bare (body : string).

Definition field_text (f : written_field) : string :=
  match f with Quoted body => body | Bare body => body end.

Definition render (f : written_field) : string :=
  match f with Quoted body => quoted body | Bare body => body end.

Fixpoint all_chars (ok : ascii -> bool) (s : string) : bool :=
  match s with
  | EmptyString => true
  | String c s' => ok c && all_chars ok s'
  end.

Definition not_quote (c : ascii) : bool := negb (Ascii.eqb c Csv.quotechar).

Definition bare_char (c : ascii) : bool :=
  negb (Csv.is_newline c) && negb (Ascii.eqb c Csv.quotechar)
  && negb (Ascii.eqb c Csv.delimiter).

(** A quoted field may hold anything but the quote character, commas
    included; a bare field holds no comma, quote or line break.  Either is
    within the field size limit of the csv module. *)
Definition field_ok (f : written_field) : bool :=
  (Z.of_nat (String.length (field_text f)) <=? Csv.field_limit)
  && match f with
     | Quoted body => all_chars not_quote body
     | Bare body => all_chars bare_char body
     end.

(** The fields of a line, separated by commas. *)
Fixpoint join (fs : list written_field) : string :=
  match fs with
  | [] => EmptyString
  | [f] => render f
  | f :: fs' => render f ++ String Csv.delimiter (join fs')
  end.

(** A line of the file ends with a line feed, except possibly the last. *)
Definition line_end (terminated : bool) : string :=
  if terminated then newline else EmptyString.


(** The exception in which one pass through the loop body ends when cursor
    and connection are open, read off the row alone. *)
Definition exception_of_row (row : list string) : exn :=
  match unpack row with
  | Raise e => e
  | Ok (date_time_str, _, _, _, _) =>
      match strptime date_time_str with
      | None => DateParseError
      | Some _ => DatabaseError
      end
  end.

(** The server takes a new artist into the table [t]: its sequence has an
    id left to give, and no artist of [t] has that id. *)
Definition artist_insertable (s : Server) (t : Tables) : bool :=
  (artists_id_seq s + 1 <=? artists_id_max s)
  && negb (existsb (fun a => artist_id a =? artists_id_seq s + 1) (artists t)).

(** The server takes a new song into the table [t]: its sequence has an id
    left to give, and no song of [t] has that id. *)
Definition song_insertable (s : Server) (t : Tables) : bool :=
  (songs_id_seq s + 1 <=? songs_id_max s)
  && negb (existsb (fun x => song_id x =? songs_id_seq s + 1) (songs t)).

(** The server after it was asked for the id of a new artist. *)
Definition after_nextval_artists (s : Server) : Server :=
  mk_Server (data s)
    (if artists_id_seq s + 1 <=? artists_id_max s
     then artists_id_seq s + 1 else artists_id_seq s)
    (songs_id_seq s) (artists_id_max s) (songs_id_max s).

(** The server after it was asked for the id of a new song. *)
Definition after_nextval_songs (s : Server) : Server :=
  mk_Server (data s) (artists_id_seq s)
    (if songs_id_seq s + 1 <=? songs_id_max s
     then songs_id_seq s + 1 else songs_id_seq s)
    (artists_id_max s) (songs_id_max s).

(** The artist block can return an id: an artist of the name is in the
    table, or the server takes a new one. *)
Definition artist_id_available (artist_name : string) (p : Process) : bool :=
  match find (by_name artist_name) (artists (txn p)) with
  | Some _ => true
  | None => artist_insertable (server p) (txn p)
  end.

(** The song block can return an id: a song of the spotify_id is in the
    table, or the server takes a new one. *)
Definition song_id_available (spotify_id : string) (p : Process) : bool :=
  match find (by_spotify_id spotify_id) (songs (txn p)) with
  | Some _ => true
  | None => song_insertable (server p) (txn p)
  end.

(** The exception in which one pass through the loop body ends when it
    starts on the tables [t] with cursor and connection open and no
    statement failed before; [insertable] says whether the server takes a
    new artist.  The unpacking and the date conversion come first.  Then
    the artist name is sent in a SELECT, which psycopg2 refuses for a NUL
    character; an artist that is not there is inserted, unless the server
    refuses.  Then the spotify_id is sent in a SELECT; the song name and
    the link are sent only when the song is not there yet.  Whatever gets
    through ends at the song INSERT or at the history INSERT, with the
    same exception. *)
Definition exception_of_record (t : Tables) (insertable : bool)
    (row : list string) : exn :=
  match unpack row with
  | Raise e => e
  | Ok (date_time_str, song_name, artist_name, spotify_id, link) =>
      match strptime date_time_str with
      | None => DateParseError
      | Some _ =>
          if has_nul artist_name then NulValueError
          else
            match find (by_name artist_name) (artists t), insertable with
            | None, false => DatabaseError
            | _, _ =>
                if has_nul spotify_id then NulValueError
                else
                  match find (by_spotify_id spotify_id) (songs t) with
                  | Some _ => DatabaseError
                  | None =>
                      if has_nul song_name || has_nul link then NulValueError
                      else DatabaseError
                  end
            end
      end
  end.

(** The exception of a run on the database of the server [s], read off
    what the reader yields. *)
Definition exception_of_first_item (s : Server)
    (items : list (exn + list string)) : option exn :=
  match items with
  | [] => None
  | inl e :: _ => Some e
  | inr row :: _ =>
      Some (exception_of_record (data s) (artist_insertable s (data s)) row)
  end.

(** A record is pending in the reader: the end of the input returns it. *)
Definition pending_at_end (r : Csv.Reader) : bool :=
  negb (Csv.field_len r =? 0)
  || match Csv.state r with Csv.IN_QUOTED_FIELD => true | _ => false end.

(** No two artists of one name, no two songs of one spotify_id. *)
Definition unique_keys (t : Tables) : Prop :=
  NoDup (map artist_name (artists t))
  /\ NoDup (map song_spotify_id (songs t)).

(** A database that holds one artist and one song of that artist. *)
Definition drake_server : Server :=
  mk_Server (mk_Tables [mk_Artist 1 "Drake"]
                       [mk_Song 1 "Song A" 1 "abc123" "http://link"] [])
            1 1 2147483647 2147483647.




(** A matcher all of whose results satisfy [Q]. *)
Definition sound {A} (Q : A -> Prop) (m : matcher A) : Prop :=
  forall s r, m s = Some r -> Q r.

(** The hour and the minute that the regular expression captured are an
    hour of the 12-hour clock and a minute. *)
Definition clock_fields (r : found * string) : Prop :=
  1 <= found_I (fst r) <= 12 /\ 0 <= found_M (fst r) <= 59.



(** A record as it may be written on one line: at least one field, every
    field within [field_ok], and not the lone empty bare field, whose line
    is the blank line. *)
Definition record_ok (fs : list written_field) : bool :=
  forallb field_ok fs
  && match fs with
     | [] => false
     | [Bare EmptyString] => false
     | _ => true
     end.

(** The line of a record, with or without its line feed. *)
Definition write_line (r : list written_field * bool) : string :=
  join (fst r) ++ line_end (snd r).

(** The reader after the lines [lines], when reading them raises
    nothing: as [Csv.iterate] goes, without the records. *)
Fixpoint feed (r : Csv.Reader) (lines : list string) : option Csv.Reader :=
  match lines with
  | [] => Some r
  | line :: lines' =>
      match Csv.parse_line r line with
      | None => None
      | Some r' =>
          match Csv.state r' with
          | Csv.START_RECORD => feed (Csv.parse_reset r') lines'
          | _ => feed r' lines'
          end
      end
  end.

(** The line that follows the lines [before] starts a record: reading
    [before] raises nothing and does not end inside a quoted field. *)
Definition starts_a_record (before : list string) : bool :=
  match feed Csv.new_reader before with
  | Some (Csv.mk_Reader Csv.START_RECORD [] EmptyString) => true
  | _ => false
  end.

(** * Properties *)

Example strptime_spec_example :
  strptime "January 5, 2024 at 3:45PM" = Some (mk_datetime 2024 1 5 15 45 0).
Proof. reflexivity. Qed.

Example strptime_iso_rejected : strptime "2024-01-05 15:45" = None.
Proof. reflexivity. Qed.

(** ** The blocks of the loop body *)

Section Blocks.

Lemma hd_error_map_filter {A B} (f : A -> B) (g : A -> bool) (l : list A) :
  hd_error (map f (filter g l)) = option_map f (find g l).
Proof.
  induction l as [|x l IH]; simpl; [reflexivity|].
  destruct (g x); simpl; auto.
Qed.

Lemma filter_ext_eq {A} (f g : A -> bool) (l : list A) :
  (forall x, f x = g x) -> filter f l = filter g l.
Proof.
  intros E; induction l as [|x l IH]; simpl; [reflexivity|].
  rewrite E, IH; reflexivity.
Qed.

Lemma select_artist_by_name (name : string) (p : Process) :
  handles_open p = true ->
  has_nul name = false ->
  txn_failed p = false ->
  cur_execute (SELECT_id_FROM "artists" "name" (VStr name)) p
  = (Ok (map (fun a => [VInt (artist_id a)])
             (filter (by_name name) (artists (txn p)))), p).
Proof.
  intros H N F; unfold cur_execute, handles_open in *; rewrite H.
  cbn. rewrite N, F. cbn. unfold select_id; cbn.
  rewrite (filter_ext_eq _ (by_name name)); [reflexivity|].
  intros a; reflexivity.
Qed.

Lemma select_song_by_spotify_id (spotify_id : string) (p : Process) :
  handles_open p = true ->
  has_nul spotify_id = false ->
  txn_failed p = false ->
  cur_execute (SELECT_id_FROM "songs" "spotify_id" (VStr spotify_id)) p
  = (Ok (map (fun s => [VInt (song_id s)])
             (filter (by_spotify_id spotify_id) (songs (txn p)))), p).
Proof.
  intros H N F; unfold cur_execute, handles_open in *; rewrite H.
  cbn. rewrite N, F. cbn. unfold select_id; cbn.
  rewrite (filter_ext_eq _ (by_spotify_id spotify_id)); [reflexivity|].
  intros s; reflexivity.
Qed.

Lemma execute_closed (q : statement) (p : Process) :
  handles_open p = false -> cur_execute q p = (Raise DatabaseError, p).
Proof.
  intros H; unfold cur_execute, handles_open in *; rewrite H; reflexivity.
Qed.

(** A parameter with a NUL character: nothing is sent. *)
Lemma execute_nul (q : statement) (p : Process) :
  handles_open p = true ->
  forallb adaptable (parameters q) = false ->
  cur_execute q p = (Raise NulValueError, p).
Proof.
  intros H N; unfold cur_execute, handles_open in *; rewrite H, N.
  reflexivity.
Qed.

(** After a failed statement the server refuses the next. *)
Lemma execute_failed (q : statement) (p : Process) :
  handles_open p = true ->
  forallb adaptable (parameters q) = true ->
  txn_failed p = true ->
  cur_execute q p = (Raise DatabaseError, p).
Proof.
  intros H N F; unfold cur_execute, handles_open in *; rewrite H, N, F.
  reflexivity.
Qed.

(** The artist block: the id of the first artist of that exact name, or a
    new row with the next id of the sequence. *)
Lemma artist_block (name : string) (p : Process) :
  insert_artist_if_not_exists name p =
  if handles_open p then
    if has_nul name then (Raise NulValueError, p)
    else if txn_failed p then (Raise DatabaseError, p)
    else
      match find (by_name name) (artists (txn p)) with
      | Some a => (Ok (VInt (artist_id a)), p)
      | None =>
          let a := mk_Artist (artists_id_seq (server p) + 1) name in
          if artist_insertable (server p) (txn p)
          then (Ok (VInt (artist_id a)), add_artist a p)
          else (Raise DatabaseError,
                fail_txn (with_server (after_nextval_artists (server p)) p))
      end
  else (Raise DatabaseError, p).
Proof.
  unfold insert_artist_if_not_exists, bind_M.
  destruct (handles_open p) eqn:H.
  - destruct (has_nul name) eqn:N.
    { rewrite execute_nul; [reflexivity|exact H|]. simpl. rewrite N.
      reflexivity. }
    destruct (txn_failed p) eqn:F.
    { rewrite execute_failed; [reflexivity|exact H| |exact F].
      simpl. rewrite N. reflexivity. }
    rewrite select_artist_by_name by assumption.
    unfold fetchone. rewrite hd_error_map_filter.
    destruct (find (by_name name) (artists (txn p))) as [a|]; simpl.
    + reflexivity.
    + unfold cur_execute. unfold handles_open in H. rewrite H.
      simpl. rewrite N, F.
      unfold insert_artist, artist_insertable, after_nextval_artists. simpl.
      destruct (artists_id_seq (server p) + 1 <=? artists_id_max (server p));
        [destruct (existsb _ _); reflexivity|].
      destruct p as [[d sa ss ma ms] t f c o fo n out]. reflexivity.
  - rewrite execute_closed by exact H. reflexivity.
Qed.

(** The song block, called with an integer artist id. *)
Lemma song_block (song_name : string) (artist : Z) (spotify_id link : string)
    (p : Process) :
  insert_song_if_not_exists song_name (VInt artist) spotify_id link p =
  if handles_open p then
    if has_nul spotify_id then (Raise NulValueError, p)
    else if txn_failed p then (Raise DatabaseError, p)
    else
      match find (by_spotify_id spotify_id) (songs (txn p)) with
      | Some s => (Ok (VInt (song_id s)), p)
      | None =>
          if has_nul song_name || has_nul link then (Raise NulValueError, p)
          else
            let s := mk_Song (songs_id_seq (server p) + 1) song_name artist
                             spotify_id link in
            if song_insertable (server p) (txn p)
            then (Ok (VInt (song_id s)), add_song s p)
            else (Raise DatabaseError,
                  fail_txn (with_server (after_nextval_songs (server p)) p))
      end
  else (Raise DatabaseError, p).
Proof.
  unfold insert_song_if_not_exists, bind_M.
  destruct (handles_open p) eqn:H.
  - destruct (has_nul spotify_id) eqn:N.
    { rewrite execute_nul; [reflexivity|exact H|]. simpl. rewrite N.
      reflexivity. }
    destruct (txn_failed p) eqn:F.
    { rewrite execute_failed; [reflexivity|exact H| |exact F].
      simpl. rewrite N. reflexivity. }
    rewrite select_song_by_spotify_id by assumption.
    unfold fetchone. rewrite hd_error_map_filter.
    destruct (find (by_spotify_id spotify_id) (songs (txn p))) as [s|]; simpl.
    + reflexivity.
    + unfold cur_execute. unfold handles_open in H. rewrite H.
      simpl. rewrite N, F.
      destruct (has_nul song_name); destruct (has_nul link);
        try reflexivity.
      unfold insert_song, song_insertable, after_nextval_songs. simpl.
      destruct (songs_id_seq (server p) + 1 <=? songs_id_max (server p));
        [destruct (existsb _ _); reflexivity|].
      destruct p as [[d sa ss ma ms] t f c o fo n out]. reflexivity.
  - rewrite execute_closed by exact H. reflexivity.
Qed.

(** The history block: PostgreSQL rejects the statement, whose column list
    names four columns while its VALUES list has three expressions; the
    transaction is failed from then on. *)
Lemma history_block (song : Z) (date_time : datetime) (p : Process) :
  insert_listening_history (VInt song) date_time p =
  if handles_open p && negb (txn_failed p)
  then (Raise DatabaseError, fail_txn p)
  else (Raise DatabaseError, p).
Proof.
  unfold insert_listening_history, bind_M, cur_execute, handles_open.
  destruct (cur_open p && conn_open p); [|reflexivity].
  simpl. destruct (txn_failed p); reflexivity.
Qed.

(** Whatever is passed for the song id, the history block raises, and the
    state it leaves differs from the one it found by the failure mark at
    most. *)
Lemma history_block_raises (song_id : value) (date_time : datetime)
    (p : Process) :
  exists e,
    insert_listening_history song_id date_time p = (Raise e, p)
    \/ insert_listening_history song_id date_time p = (Raise e, fail_txn p).
Proof.
  unfold insert_listening_history, bind_M, cur_execute.
  destruct (cur_open p && conn_open p); [|eauto].
  destruct (forallb adaptable _); [|eauto].
  destruct (txn_failed p); [eauto|].
  simpl. eauto.
Qed.

End Blocks.

(** ** One row, and the loop *)

Section Loop.

Lemma unpack_five (row : list string) :
  List.length row <> 5%nat <-> unpack row = Raise MalformedRowError.
Proof.
  unfold unpack.
  destruct row as [|a [|b [|c [|d [|e [|f r]]]]]]; simpl;
    split; intros H; try reflexivity; try discriminate; try lia.
Qed.

Lemma process_row_eq (row : list string) (p : Process) :
  process_row row p =
  match unpack row with
  | Raise e => (Raise e, p)
  | Ok (date_time_str, song_name, artist_name, spotify_id, link) =>
      match convert_date date_time_str with
      | Raise e => (Raise e, p)
      | Ok date_time =>
          match insert_artist_if_not_exists artist_name p with
          | (Raise e, p1) => (Raise e, p1)
          | (Ok artist_id, p1) =>
              match insert_song_if_not_exists song_name artist_id
                      spotify_id link p1 with
              | (Raise e, p2) => (Raise e, p2)
              | (Ok song_id, p2) =>
                  insert_listening_history song_id date_time p2
              end
          end
      end
  end.
Proof.
  unfold process_row, bind_M, lift.
  destruct (unpack row) as [[[[[ts sn] an] sid] lk]|e]; [|reflexivity].
  destruct (convert_date ts) as [d|e]; [|reflexivity].
  destruct (insert_artist_if_not_exists an p) as [[aid|e] p1]; [|reflexivity].
  destruct (insert_song_if_not_exists sn aid sid lk p1) as [[s|e] p2];
    reflexivity.
Qed.

(** No row gets through the loop body: whatever the row and the state,
    the body ends in an exception. *)
Lemma process_row_raises (row : list string) (p : Process) :
  exists e, fst (process_row row p) = Raise e.
Proof.
  rewrite process_row_eq.
  destruct (unpack row) as [[[[[ts sn] an] sid] lk]|e]; [|simpl; eauto].
  destruct (convert_date ts) as [d|e]; [|simpl; eauto].
  destruct (insert_artist_if_not_exists an p) as [[aid|e] p1];
    [|simpl; eauto].
  destruct (insert_song_if_not_exists sn aid sid lk p1) as [[s|e] p2];
    [|simpl; eauto].
  destruct (history_block_raises s d p2) as [e [E|E]]; rewrite E;
    simpl; eauto.
Qed.

Lemma process_row_malformed (row : list string) (p : Process) :
  List.length row <> 5%nat -> process_row row p = (Raise MalformedRowError, p).
Proof.
  intros H. rewrite process_row_eq.
  apply unpack_five in H. rewrite H. reflexivity.
Qed.

Lemma process_row_bad_date (row : list string) (p : Process)
    (date_time_str song_name artist_name spotify_id link : string) :
  unpack row = Ok (date_time_str, song_name, artist_name, spotify_id, link) ->
  strptime date_time_str = None ->
  process_row row p = (Raise DateParseError, p).
Proof.
  intros U D. rewrite process_row_eq, U.
  unfold convert_date. rewrite D. reflexivity.
Qed.

(** The loop leaves its items in order: once the items of [before] are
    through, it goes on with the rest from the state they left. *)
Lemma for_each_row_app (before : list (list string))
    (rest : list (exn + list string)) (p p' : Process) :
  for_each_row (map inr before) p = (Ok tt, p') ->
  for_each_row (map inr before ++ rest) p = for_each_row rest p'.
Proof.
  revert p. induction before as [|row before IH]; intros p H; simpl in *.
  - unfold ret in H. inversion H. reflexivity.
  - unfold bind_M in *.
    destruct (process_row row p) as [[[]|e] p1]; [|discriminate].
    apply IH. exact H.
Qed.

Lemma for_each_row_ok (items : list (exn + list string)) (p p' : Process) :
  for_each_row items p = (Ok tt, p') -> items = [] /\ p' = p.
Proof.
  destruct items as [|[e|row] items]; simpl; unfold ret, raise, bind_M.
  - intros H; inversion H; auto.
  - discriminate.
  - destruct (process_row_raises row p) as [e E].
    destruct (process_row row p) as [[[]|e'] p1]; simpl in E; discriminate.
Qed.

Lemma frame_refl (p : Process) : frame p p.
Proof. unfold frame; intuition. Qed.

Lemma frame_trans (p q r : Process) : frame p q -> frame q r -> frame p r.
Proof. unfold frame; intuition congruence. Qed.

Lemma artist_block_frame (name : string) (p : Process) :
  frame p (snd (insert_artist_if_not_exists name p)).
Proof.
  rewrite artist_block.
  destruct (handles_open p); [|apply frame_refl].
  destruct (has_nul name); [apply frame_refl|].
  destruct (txn_failed p); [apply frame_refl|].
  destruct (find _ _); [apply frame_refl|].
  cbv zeta. destruct (artist_insertable _ _); unfold frame; simpl; intuition.
Qed.

Lemma artist_block_returns (name : string) (p p' : Process) (v : value) :
  insert_artist_if_not_exists name p = (Ok v, p') -> exists id, v = VInt id.
Proof.
  rewrite artist_block.
  destruct (handles_open p); [|discriminate].
  destruct (has_nul name); [discriminate|].
  destruct (txn_failed p); [discriminate|].
  destruct (find _ _); cbv zeta; [|destruct (artist_insertable _ _)];
    simpl; intros H; inversion H; eauto.
Qed.

Lemma history_block_frame (song_id : value) (date_time : datetime)
    (p : Process) :
  frame p (snd (insert_listening_history song_id date_time p)).
Proof.
  destruct (history_block_raises song_id date_time p) as [e [E|E]];
    rewrite E; simpl; [apply frame_refl|].
  unfold frame; simpl; intuition.
Qed.

Lemma history_block_txn (song_id : value) (date_time : datetime)
    (p : Process) :
  txn (snd (insert_listening_history song_id date_time p)) = txn p.
Proof.
  destruct (history_block_raises song_id date_time p) as [e [E|E]];
    rewrite E; reflexivity.
Qed.

Lemma song_block_frame (song_name : string) (artist : Z)
    (spotify_id link : string) (p : Process) :
  frame p (snd (insert_song_if_not_exists song_name (VInt artist)
                  spotify_id link p)).
Proof.
  rewrite song_block.
  destruct (handles_open p); [|apply frame_refl].
  destruct (has_nul spotify_id); [apply frame_refl|].
  destruct (txn_failed p); [apply frame_refl|].
  destruct (find _ _); [apply frame_refl|].
  destruct (has_nul song_name || has_nul link); [apply frame_refl|].
  cbv zeta. destruct (song_insertable _ _); unfold frame; simpl; intuition.
Qed.

Lemma process_row_frame (row : list string) (p : Process) :
  frame p (snd (process_row row p)).
Proof.
  rewrite process_row_eq.
  destruct (unpack row) as [[[[[ts sn] an] sid] lk]|e]; [|apply frame_refl].
  destruct (convert_date ts) as [d|e]; [|apply frame_refl].
  pose proof (artist_block_frame an p) as FA.
  destruct (insert_artist_if_not_exists an p) as [[aid|e] p1] eqn:EA;
    [|exact FA].
  destruct (artist_block_returns _ _ _ _ EA) as [a ->].
  pose proof (song_block_frame sn a sid lk p1) as FS.
  destruct (insert_song_if_not_exists sn (VInt a) sid lk p1) as [[s|e] p2];
    simpl in *.
  - eapply frame_trans; [exact FA|].
    eapply frame_trans; [exact FS|]. apply history_block_frame.
  - eapply frame_trans; eauto.
Qed.

Lemma for_each_row_frame (items : list (exn + list string)) (p : Process) :
  frame p (snd (for_each_row items p)).
Proof.
  revert p. induction items as [|[e|row] items IH]; intros p; simpl.
  - apply frame_refl.
  - apply frame_refl.
  - unfold bind_M. pose proof (process_row_frame row p) as F.
    destruct (process_row row p) as [[[]|e] p1]; simpl in F.
    + eapply frame_trans; [exact F|apply IH].
    + exact F.
Qed.

End Loop.

(** ** The whole run *)

Section Run.

(** An exception in the loop leaves the script at once: the file is closed
    by the [with] statement and nothing after the loop runs. *)
Lemma main_raise (lines : list string) (s : Server) (e : exn) (p' : Process) :
  for_each_row (Csv.reader lines) (opened s) = (Raise e, p') ->
  main lines s = (Raise e, with_file_open false p').
Proof.
  intros H. unfold main, script, bind_M, with_open.
  fold (opened s). rewrite H. reflexivity.
Qed.

(** When the loop gets to its end, which it does only without having run
    its body, the statements after it run. *)
Lemma main_cases (lines : list string) (s : Server) :
  (exists e p', for_each_row (Csv.reader lines) (opened s) = (Raise e, p')
                /\ main lines s = (Raise e, with_file_open false p'))
  \/ (Csv.reader lines = []
      /\ main lines s =
         (Ok tt, mk_Process s (data s) false false false false 1
                            ["Data imported successfully!"])).
Proof.
  destruct (for_each_row (Csv.reader lines) (opened s)) as [[[]|e] p'] eqn:H.
  - right. destruct (for_each_row_ok _ _ _ H) as [R ->].
    split; [exact R|].
    unfold main, script, bind_M, with_open. fold (opened s). rewrite H.
    destruct s; reflexivity.
  - left. exists e, p'. split; [reflexivity|]. apply main_raise; exact H.
Qed.

(** The rows the server holds are the same after any run as before it. *)
Lemma main_data (lines : list string) (s : Server) :
  data (server_after (main lines s)) = data s.
Proof.
  unfold server_after.
  destruct (main_cases lines s) as [(e & p' & H & ->)|[_ ->]]; simpl.
  - pose proof (for_each_row_frame (Csv.reader lines) (opened s)) as F.
    rewrite H in F. destruct F as (D & _). exact D.
  - reflexivity.
Qed.

(** A run that ends in an exception has committed nothing, printed nothing
    and left cursor and connection as they were. *)
Lemma main_raised (lines : list string) (s : Server) (e : exn) :
  raised (main lines s) = Some e ->
  data (server_after (main lines s)) = data s
  /\ commits (snd (main lines s)) = 0%nat
  /\ stdout (snd (main lines s)) = []
  /\ cur_open (snd (main lines s)) = true
  /\ conn_open (snd (main lines s)) = true
  /\ file_open (snd (main lines s)) = false.
Proof.
  intros R. split; [apply main_data|].
  destruct (main_cases lines s) as [(e' & p' & H & E)|[_ E]];
    rewrite E in *; [|discriminate].
  pose proof (for_each_row_frame (Csv.reader lines) (opened s)) as F.
  rewrite H in F. destruct F as (_ & C1 & C2 & _ & C3 & C4).
  simpl in *. auto.
Qed.

(** The first item at which the loop body raises decides the exception of
    the run. *)
Lemma main_first_failure (lines : list string) (s : Server)
    (before : list (list string)) (row : list string)
    (after : list (exn + list string)) (p : Process) (e : exn) :
  Csv.reader lines = (map inr before ++ inr row :: after)%list ->
  for_each_row (map inr before) (opened s) = (Ok tt, p) ->
  process_row row p = (Raise e, p) ->
  raised (main lines s) = Some e.
Proof.
  intros R B P.
  assert (H : for_each_row (Csv.reader lines) (opened s) = (Raise e, p)).
  { rewrite R, (for_each_row_app _ _ _ _ B). simpl. unfold bind_M.
    rewrite P. reflexivity. }
  rewrite (main_raise _ _ _ _ H). reflexivity.
Qed.

End Run.

(** ** The claims *)

(** C1 (the code departs from the claim).  The end-to-end example: one row
    on an empty database.  The run gets through the artist block and the
    song block and is then stopped by the history INSERT, which PostgreSQL
    rejects (four target columns, three values).  The run ends with
    [DatabaseError]; at that point the transaction holds the artist and the
    song but no history row, nothing was committed, and the database is left
    with no row at all. *)
Theorem C1_example_run_raises :
  let o := main [example_line] empty_server in
  Csv.reader [example_line]
  = [inr ["January 5, 2024 at 3:45PM"; "Song A"; "Artist X"; "abc123";
          "http://link"]]
  /\ raised o = Some DatabaseError
  /\ commits (snd o) = 0%nat
  /\ txn (snd o)
     = mk_Tables [mk_Artist 1 "Artist X"]
                 [mk_Song 1 "Song A" 1 "abc123" "http://link"] []
  /\ data (server_after o) = empty_tables.
Proof. vm_compute. repeat split. Qed.

(** C2, as stated, fails: a row of two fields ends the run with an
    exception; cursor and connection are still open when the process
    ends. *)
Lemma C2_counterexample :
  let o := main [short_line] empty_server in
  raised o = Some MalformedRowError
  /\ cur_open (snd o) = true /\ conn_open (snd o) = true.
Proof. vm_compute. repeat split. Qed.

(** C2 (amended).  Cursor and connection are closed at the end of the run
    exactly when the run ends without an exception; a run that ends in an
    exception leaves both open.  The input file is closed either way. *)
Theorem C2_closed_on_normal_completion_only (lines : list string) (s : Server) :
  let o := main lines s in
  let open_at_exit := match raised o with Some _ => true | None => false end in
  cur_open (snd o) = open_at_exit
  /\ conn_open (snd o) = open_at_exit
  /\ file_open (snd o) = false.
Proof.
  cbv zeta.
  destruct (raised (main lines s)) as [e|] eqn:R.
  - destruct (main_raised _ _ _ R) as (_ & _ & _ & C1 & C2 & C3). auto.
  - destruct (main_cases lines s) as [(e & p' & _ & E)|[_ E]];
      rewrite E in *; [discriminate|]. simpl. auto.
Qed.

(** C3, as stated, fails: the input holds a row whose timestamp does not
    match the format, but a row of two fields comes first and the run ends
    with [MalformedRowError]. *)
Lemma C3_counterexample :
  let lines := [short_line; iso_line] in
  In (inr ["2024-01-05 15:45"; "Song A"; "Artist X"; "abc123"; "http://link"])
     (Csv.reader lines)
  /\ strptime "2024-01-05 15:45" = None
  /\ raised (main lines empty_server) = Some MalformedRowError.
Proof.
  vm_compute. split; [|split].
  - right. left. reflexivity.
  - reflexivity.
  - reflexivity.
Qed.

(** C3 (amended).  When the loop reaches a row of five fields whose first
    field [strptime] rejects, every item before it having gone through
    the loop body without an exception, the run ends with [DateParseError]
    and the database holds the rows it held before the run. *)
Theorem C3_rejected_timestamp_aborts
    (lines : list string) (s : Server)
    (before : list (list string)) (row : list string)
    (after : list (exn + list string)) (p : Process)
    (date_time_str song_name artist_name spotify_id link : string) :
  Csv.reader lines = (map inr before ++ inr row :: after)%list ->
  for_each_row (map inr before) (opened s) = (Ok tt, p) ->
  unpack row = Ok (date_time_str, song_name, artist_name, spotify_id, link) ->
  strptime date_time_str = None ->
  raised (main lines s) = Some DateParseError
  /\ data (server_after (main lines s)) = data s.
Proof.
  intros R B U D. split; [|apply main_data].
  eapply main_first_failure; eauto.
  eapply process_row_bad_date; eauto.
Qed.

Lemma C3_rejected_timestamp_aborts_witness :
  strptime "2024-01-05 15:45" = None
  /\ raised (main [iso_line] empty_server) = Some DateParseError
  /\ data (server_after (main [iso_line] empty_server)) = data empty_server.
Proof.
  split; [vm_compute; reflexivity|].
  apply (C3_rejected_timestamp_aborts [iso_line] empty_server []
           ["2024-01-05 15:45"; "Song A"; "Artist X"; "abc123"; "http://link"]
           [] (opened empty_server)
           "2024-01-05 15:45" "Song A" "Artist X" "abc123" "http://link");
    vm_compute; reflexivity.
Defined.

(** C8, as stated, fails: the input holds a row of two fields, but a row
    with a rejected timestamp comes first and the run ends with
    [DateParseError]. *)
Lemma C8_counterexample :
  let lines := [iso_line; short_line] in
  In (inr ["Song A"; "Artist X"]) (Csv.reader lines)
  /\ raised (main lines empty_server) = Some DateParseError.
Proof.
  vm_compute. split.
  - right. left. reflexivity.
  - reflexivity.
Qed.

(** C8 (amended).  When the loop reaches a row that does not have exactly
    five fields, every item before it having gone through the loop body
    without an exception, the run ends with [MalformedRowError]: nothing is
    committed, nothing is printed and the database holds the rows it held
    before the run. *)
Theorem C8_wrong_field_count_aborts
    (lines : list string) (s : Server)
    (before : list (list string)) (row : list string)
    (after : list (exn + list string)) (p : Process) :
  Csv.reader lines = (map inr before ++ inr row :: after)%list ->
  for_each_row (map inr before) (opened s) = (Ok tt, p) ->
  List.length row <> 5%nat ->
  raised (main lines s) = Some MalformedRowError
  /\ commits (snd (main lines s)) = 0%nat
  /\ stdout (snd (main lines s)) = []
  /\ data (server_after (main lines s)) = data s.
Proof.
  intros R B L.
  assert (E : raised (main lines s) = Some MalformedRowError).
  { eapply main_first_failure; eauto. apply process_row_malformed; exact L. }
  destruct (main_raised _ _ _ E) as (D & C & O & _). auto.
Qed.

Lemma C8_wrong_field_count_aborts_witness :
  List.length ["Song A"; "Artist X"] <> 5%nat
  /\ raised (main [short_line] empty_server) = Some MalformedRowError
  /\ commits (snd (main [short_line] empty_server)) = 0%nat
  /\ stdout (snd (main [short_line] empty_server)) = []
  /\ data (server_after (main [short_line] empty_server)) = data empty_server.
Proof.
  split; [simpl; lia|].
  apply (C8_wrong_field_count_aborts [short_line] empty_server []
           ["Song A"; "Artist X"] [] (opened empty_server));
    [vm_compute; reflexivity | vm_compute; reflexivity | simpl; lia].
Defined.

(** C9.  On an input of zero lines the run ends without an exception: the
    loop body never runs, the commit goes through with nothing to write
    (the server is exactly as before), cursor and connection are closed and
    the success message is the one line printed. *)
Theorem C9_empty_input (s : Server) :
  let o := main [] s in
  raised o = None
  /\ server_after o = s
  /\ txn (snd o) = data s
  /\ commits (snd o) = 1%nat
  /\ cur_open (snd o) = false
  /\ conn_open (snd o) = false
  /\ file_open (snd o) = false
  /\ stdout (snd o) = ["Data imported successfully!"].
Proof.
  destruct s as [d a b]. cbv zeta.
  unfold main, script, bind_M, with_open. simpl. repeat split.
Qed.


(** C4 (the code departs from the claim).  Two rows with the same
    spotify_id and different names and links: the run is stopped by the
    history INSERT of the first row, the second row is never read, and the
    database is left without any song.  When the run stops, its transaction
    holds the one song of the first row. *)
Theorem C4_same_spotify_id_run_raises :
  let o := main same_spotify_id_lines empty_server in
  Csv.reader same_spotify_id_lines
  = [inr ["January 5, 2024 at 3:45PM"; "Song A"; "Artist X"; "abc123";
          "http://link"];
     inr ["January 5, 2024 at 3:50PM"; "Song B"; "Artist X"; "abc123";
          "http://other"]]
  /\ raised o = Some DatabaseError
  /\ songs (txn (snd o)) = [mk_Song 1 "Song A" 1 "abc123" "http://link"]
  /\ songs (data (server_after o)) = [].
Proof. vm_compute. repeat split. Qed.

(** C5 (the code departs from the claim).  Two rows whose artist names are
    "Drake" and "drake": the run is stopped by the history INSERT of the
    first row, so the second name is never looked up; the database is left
    without any artist. *)
Theorem C5_drake_run_raises :
  let o := main drake_lines empty_server in
  Csv.reader drake_lines
  = [inr ["January 5, 2024 at 3:45PM"; "Song A"; "Drake"; "abc123";
          "http://link"];
     inr ["January 5, 2024 at 3:50PM"; "Song B"; "drake"; "def456";
          "http://other"]]
  /\ raised o = Some DatabaseError
  /\ artists (txn (snd o)) = [mk_Artist 1 "Drake"]
  /\ artists (data (server_after o)) = [].
Proof. vm_compute. repeat split. Qed.

(** ** Insert-only growth of the tables *)

Section Growth.

Lemma grows_trans (t t' t'' : Tables) :
  grows t t' -> grows t' t'' -> grows t t''.
Proof.
  intros G G'. induction G' as [|u a _ IH N|u s _ IH E N].
  - exact G.
  - apply grows_artist; [exact IH|exact N].
  - apply grows_song; [exact IH|exact E|exact N].
Qed.

(** Rows once there stay where they are, with what they hold, and the
    history table stays as it is. *)
Lemma grows_prefix (t t' : Tables) :
  grows t t' ->
  exists new_artists new_songs,
    artists t' = (artists t ++ new_artists)%list
    /\ songs t' = (songs t ++ new_songs)%list
    /\ user_listening_history t' = user_listening_history t.
Proof.
  induction 1 as [|u a _ IH N|u s _ IH E N].
  - exists [], []. rewrite !app_nil_r. auto.
  - destruct IH as (na & ns & A & S & H).
    exists (na ++ [a])%list, ns. simpl. rewrite A, app_assoc. auto.
  - destruct IH as (na & ns & A & S & H).
    exists na, (ns ++ [s])%list. simpl. rewrite S, app_assoc. auto.
Qed.

(** Insertions of this kind keep the references whole: when every song
    names an artist of the table and every history entry a song of the
    table, the same is true afterwards. *)
Lemma grows_referential_integrity (t t' : Tables) :
  grows t t' ->
  referential_integrity t -> referential_integrity t'.
Proof.
  induction 1 as [|u a _ IH N|u s _ IH E N]; intros R.
  - exact R.
  - destruct (IH R) as [RS RH]. split; simpl.
    + intros s Hs. destruct (RS s Hs) as (b & Hb & Eb).
      exists b. split; [apply in_or_app; left; exact Hb|exact Eb].
    + exact RH.
  - destruct (IH R) as [RS RH]. split; simpl.
    + intros s' Hs. apply in_app_or in Hs. destruct Hs as [Hs|[<-|[]]].
      * exact (RS s' Hs).
      * exact E.
    + intros h Hh. destruct (RH h Hh) as (b & Hb & Eb).
      exists b. split; [apply in_or_app; left; exact Hb|exact Eb].
Qed.

(** The artist block only ever appends one artist, of a name that no
    artist has, and the id it returns is the id of an artist that is there
    when it returns. *)
Lemma artist_block_grows (name : string) (p p1 : Process) (v : value) :
  insert_artist_if_not_exists name p = (Ok v, p1) ->
  grows (txn p) (txn p1)
  /\ exists id, v = VInt id /\ artist_exists (txn p1) id.
Proof.
  rewrite artist_block.
  destruct (handles_open p); [|discriminate].
  destruct (has_nul name); [discriminate|].
  destruct (txn_failed p); [discriminate|].
  destruct (find (by_name name) (artists (txn p))) as [a|] eqn:F;
    cbv zeta; [|destruct (artist_insertable _ _); [|discriminate]];
    simpl; intros H; inversion H; subst; clear H.
  - split; [apply grows_start|].
    exists (artist_id a). split; [reflexivity|].
    exists a. split; [|reflexivity]. apply (find_some _ _ F).
  - split.
    + apply grows_artist; [apply grows_start|exact F].
    + eexists. split; [reflexivity|]. eexists. split.
      * simpl. apply in_or_app. right. left. reflexivity.
      * reflexivity.
Qed.

(** The song block only ever appends one song, of a spotify_id that no
    song has, which names the artist id it was called with. *)
Lemma song_block_grows (song_name : string) (artist : Z)
    (spotify_id link : string) (p : Process) :
  artist_exists (txn p) artist ->
  grows (txn p)
        (txn (snd (insert_song_if_not_exists song_name (VInt artist)
                     spotify_id link p))).
Proof.
  intros E. rewrite song_block.
  destruct (handles_open p); [|apply grows_start].
  destruct (has_nul spotify_id); [apply grows_start|].
  destruct (txn_failed p); [apply grows_start|].
  destruct (find _ _) eqn:F; simpl; [apply grows_start|].
  destruct (has_nul song_name || has_nul link); [apply grows_start|].
  cbv zeta. destruct (song_insertable _ _); [|apply grows_start].
  apply grows_song; [apply grows_start|exact E|exact F].
Qed.

Lemma artist_block_raise_state (name : string) (p p1 : Process) (e : exn) :
  insert_artist_if_not_exists name p = (Raise e, p1) -> txn p1 = txn p.
Proof.
  rewrite artist_block.
  destruct (handles_open p); [|intros H; inversion H; reflexivity].
  destruct (has_nul name); [intros H; inversion H; reflexivity|].
  destruct (txn_failed p); [intros H; inversion H; reflexivity|].
  destruct (find _ _); cbv zeta; [discriminate|].
  destruct (artist_insertable _ _); [discriminate|].
  intros H; inversion H; reflexivity.
Qed.

Lemma process_row_grows (row : list string) (p : Process) :
  grows (txn p) (txn (snd (process_row row p))).
Proof.
  rewrite process_row_eq.
  destruct (unpack row) as [[[[[ts sn] an] sid] lk]|e]; [|apply grows_start].
  destruct (convert_date ts) as [d|e]; [|apply grows_start].
  destruct (insert_artist_if_not_exists an p) as [[aid|e] p1] eqn:EA.
  - destruct (artist_block_grows _ _ _ _ EA) as (G & a & -> & X).
    pose proof (song_block_grows sn a sid lk p1 X) as GS.
    destruct (insert_song_if_not_exists sn (VInt a) sid lk p1) as [[s|e] p2];
      simpl in *; [rewrite history_block_txn|];
      eapply grows_trans; eauto.
  - simpl. rewrite (artist_block_raise_state _ _ _ _ EA). apply grows_start.
Qed.

Lemma for_each_row_grows (items : list (exn + list string)) (p : Process) :
  grows (txn p) (txn (snd (for_each_row items p))).
Proof.
  revert p. induction items as [|[e|row] items IH]; intros p; simpl.
  - apply grows_start.
  - apply grows_start.
  - unfold bind_M. pose proof (process_row_grows row p) as G.
    destruct (process_row row p) as [[[]|e] p1]; simpl in G.
    + eapply grows_trans; [exact G|apply IH].
    + exact G.
Qed.

Lemma find_app_last {A} (f : A -> bool) (l : list A) (x : A) :
  find f l = None -> f x = true -> find f (l ++ [x]) = Some x.
Proof.
  intros N T. induction l as [|y l IH]; simpl in *.
  - rewrite T. reflexivity.
  - destruct (f y); [discriminate|]. apply IH. exact N.
Qed.

(** The artist block does what step 3 of the specification says, when
    the server can give an id to a new artist. *)
Lemma artist_resolution (name : string) (p : Process) :
  handles_open p = true ->
  txn_failed p = false ->
  has_nul name = false ->
  artist_id_available name p = true ->
  let ra := spec_resolve_artist name (artists_id_seq (server p) + 1) (txn p) in
  exists p1,
    insert_artist_if_not_exists name p = (Ok (VInt (fst ra)), p1)
    /\ txn p1 = snd ra
    /\ artist_exists (txn p1) (fst ra)
    /\ handles_open p1 = true /\ txn_failed p1 = false
    /\ songs_id_seq (server p1) = songs_id_seq (server p)
    /\ songs_id_max (server p1) = songs_id_max (server p)
    /\ songs (txn p1) = songs (txn p).
Proof.
  intros H F N A. cbv zeta. rewrite artist_block, H, N, F.
  unfold spec_resolve_artist. unfold artist_id_available in A.
  destruct (find (by_name name) (artists (txn p))) as [a|] eqn:E; simpl.
  - exists p. repeat split; try assumption.
    exists a. split; [apply (find_some _ _ E)|reflexivity].
  - rewrite A.
    eexists. split; [reflexivity|]. simpl. repeat split; try assumption.
    eexists. split; [apply in_or_app; right; left; reflexivity|reflexivity].
Qed.

(** The song block does what step 4 of the specification says, when the
    server can give an id to a new song; the artist id it is called with
    is that of an artist of the table. *)
Lemma song_resolution (song_name : string) (artist : Z)
    (spotify_id link : string) (p : Process) :
  artist_exists (txn p) artist ->
  handles_open p = true ->
  txn_failed p = false ->
  has_nul spotify_id = false ->
  has_nul song_name = false ->
  has_nul link = false ->
  song_id_available spotify_id p = true ->
  let rs := spec_resolve_song song_name artist spotify_id link
              (songs_id_seq (server p) + 1) (txn p) in
  exists p2,
    insert_song_if_not_exists song_name (VInt artist) spotify_id link p
    = (Ok (VInt (fst rs)), p2)
    /\ txn p2 = snd rs
    /\ song_exists (txn p2) (fst rs).
Proof.
  intros _ H F N Ns Nl A. cbv zeta. rewrite song_block, H, N, F, Ns, Nl.
  unfold spec_resolve_song. unfold song_id_available in A.
  destruct (find (by_spotify_id spotify_id) (songs (txn p))) as [s|] eqn:E;
    simpl.
  - exists p. repeat split.
    exists s. split; [apply (find_some _ _ E)|reflexivity].
  - rewrite A.
    eexists. split; [reflexivity|]. simpl. split; [reflexivity|].
    eexists. split; [apply in_or_app; right; left; reflexivity|reflexivity].
Qed.

End Growth.

(** C7.  Two statements.  First, whatever items the loop is given and
    whatever state it starts in, the tables of the transaction in the state
    the loop ends in come from those it started with by insertions only:
    every row that was there still is, unchanged and in its place; an
    artist is added only when no artist had its name, a song only when no
    song had its spotify_id and only with the id of an artist that was
    there when the song was inserted; the history table is as it was.
    Second, for a record of five fields with an accepted timestamp (cursor
    and connection open, no statement failed before, no NUL in the texts,
    and the server takes a new row where one is needed): the artist block
    and the song block do what the specification says, inserting when the
    name, resp. the spotify_id, is absent and reusing the id found
    otherwise; the artist id given to the song INSERT and the song id given
    to the history INSERT are ids of rows that are in the tables at that
    moment. *)
Theorem C7_insert_when_absent_reuse_otherwise
    (items : list (exn + list string)) (p0 : Process)
    (row : list string) (p : Process)
    (date_time_str song_name artist_name spotify_id link : string)
    (date_time : datetime) :
  unpack row = Ok (date_time_str, song_name, artist_name, spotify_id, link) ->
  strptime date_time_str = Some date_time ->
  handles_open p = true ->
  txn_failed p = false ->
  has_nul artist_name = false ->
  has_nul spotify_id = false ->
  has_nul song_name = false ->
  has_nul link = false ->
  artist_id_available artist_name p = true ->
  song_id_available spotify_id p = true ->
  let t' := txn (snd (for_each_row items p0)) in
  let ra := spec_resolve_artist artist_name (artists_id_seq (server p) + 1)
              (txn p) in
  let rs := spec_resolve_song song_name (fst ra) spotify_id link
              (songs_id_seq (server p) + 1) (snd ra) in
  (grows (txn p0) t'
   /\ exists new_artists new_songs,
        artists t' = (artists (txn p0) ++ new_artists)%list
        /\ songs t' = (songs (txn p0) ++ new_songs)%list
        /\ user_listening_history t' = user_listening_history (txn p0))
  /\ exists p1 p2,
       insert_artist_if_not_exists artist_name p = (Ok (VInt (fst ra)), p1)
       /\ txn p1 = snd ra
       /\ artist_exists (txn p1) (fst ra)
       /\ insert_song_if_not_exists song_name (VInt (fst ra)) spotify_id link p1
          = (Ok (VInt (fst rs)), p2)
       /\ txn p2 = snd rs
       /\ song_exists (txn p2) (fst rs)
       /\ process_row row p
          = insert_listening_history (VInt (fst rs)) date_time p2.
Proof.
  intros U D H F Na Ni Ns Nl Aa As. cbv zeta. split.
  - split; [apply for_each_row_grows|].
    apply grows_prefix, for_each_row_grows.
  - destruct (artist_resolution artist_name p H F Na Aa)
      as (p1 & EA & T1 & X1 & H1 & F1 & Q1 & M1 & S1).
    assert (As1 : song_id_available spotify_id p1 = true).
    { unfold song_id_available, song_insertable in *.
      rewrite S1, Q1, M1. exact As. }
    destruct (song_resolution song_name
                (fst (spec_resolve_artist artist_name
                        (artists_id_seq (server p) + 1) (txn p)))
                spotify_id link p1 X1 H1 F1 Ni Ns Nl As1)
      as (p2 & ES & T2 & X2).
    rewrite Q1, T1 in ES, T2, X2.
    exists p1, p2. repeat split; try assumption.
    rewrite process_row_eq, U. unfold convert_date. rewrite D, EA, ES.
    reflexivity.
Qed.

Lemma C7_insert_when_absent_reuse_otherwise_witness :
  let row := ["January 5, 2024 at 3:45PM"; "Song B"; "Artist X"; "abc123";
              "http://other"] in
  let p := connect drake_server in
  (* "Artist X" is new and gets id 2; the song of "abc123" is there, id 1 *)
  spec_resolve_artist "Artist X" 2 (txn p)
  = (2, mk_Tables [mk_Artist 1 "Drake"; mk_Artist 2 "Artist X"]
                  [mk_Song 1 "Song A" 1 "abc123" "http://link"] [])
  /\ exists p1 p2,
       insert_artist_if_not_exists "Artist X" p = (Ok (VInt 2), p1)
       /\ txn p1
          = mk_Tables [mk_Artist 1 "Drake"; mk_Artist 2 "Artist X"]
                      [mk_Song 1 "Song A" 1 "abc123" "http://link"] []
       /\ artist_exists (txn p1) 2
       /\ insert_song_if_not_exists "Song B" (VInt 2) "abc123" "http://other" p1
          = (Ok (VInt 1), p2)
       /\ txn p2 = txn p1
       /\ song_exists (txn p2) 1
       /\ process_row row p
          = insert_listening_history (VInt 1)
              (mk_datetime 2024 1 5 15 45 0) p2.
Proof.
  cbv zeta. split; [vm_compute; reflexivity|].
  destruct (C7_insert_when_absent_reuse_otherwise
              [] (connect drake_server)
              ["January 5, 2024 at 3:45PM"; "Song B"; "Artist X"; "abc123";
               "http://other"]
              (connect drake_server)
              "January 5, 2024 at 3:45PM" "Song B" "Artist X" "abc123"
              "http://other" (mk_datetime 2024 1 5 15 45 0)
              eq_refl eq_refl eq_refl eq_refl eq_refl eq_refl eq_refl eq_refl
              eq_refl eq_refl)
    as (_ & p1 & p2 & A & T1 & X1 & S & T2 & X2 & P).
  exists p1, p2. repeat split.
  - exact A.
  - rewrite T1. vm_compute. reflexivity.
  - exact X1.
  - exact S.
  - rewrite T2, T1. vm_compute. reflexivity.
  - exact X2.
  - exact P.
Defined.

(** ** The csv reader on one line of quoted and bare fields *)

Section OneLine.

Import Csv.

Lemma str_app_assoc (a b c : string) : ((a ++ b) ++ c = a ++ (b ++ c))%string.
Proof. induction a as [|x a IH]; simpl; [reflexivity|]. rewrite IH; reflexivity. Qed.

Lemma str_app_nil_r (a : string) : (a ++ EmptyString)%string = a.
Proof. induction a as [|x a IH]; simpl; [reflexivity|]. rewrite IH; reflexivity. Qed.

Lemma str_app_length (a b : string) :
  String.length (a ++ b) = (String.length a + String.length b)%nat.
Proof. induction a as [|x a IH]; simpl; [reflexivity|]. rewrite IH; reflexivity. Qed.

Lemma add_char_below_limit (st : ParserState) (fs : list string)
    (acc : string) (c : ascii) :
  Z.of_nat (String.length acc) < field_limit ->
  parse_add_char (mk_Reader st fs acc) c
  = Some (mk_Reader st fs (acc ++ String c EmptyString)).
Proof.
  intros L. unfold parse_add_char, field_len. simpl.
  destruct (field_limit <=? Z.of_nat (String.length acc)) eqn:E;
    [apply Z.leb_le in E; lia | reflexivity].
Qed.

Lemma bare_char_inv (c : ascii) :
  bare_char c = true ->
  is_newline c = false /\ Ascii.eqb c quotechar = false
  /\ Ascii.eqb c delimiter = false.
Proof.
  unfold bare_char. rewrite !andb_true_iff, !negb_true_iff. tauto.
Qed.

(** The characters of a bare field are added to the field one by one. *)
Lemma bare_chars (body acc : string) (fs : list string) (rest : string) :
  all_chars bare_char body = true ->
  Z.of_nat (String.length acc + String.length body) <= field_limit ->
  parse_line (mk_Reader IN_FIELD fs acc) (body ++ rest)
  = parse_line (mk_Reader IN_FIELD fs (acc ++ body)) rest.
Proof.
  revert acc. induction body as [|c body IH]; intros acc OK L; simpl in *.
  - rewrite str_app_nil_r. reflexivity.
  - apply andb_true_iff in OK. destruct OK as [C OK].
    destruct (bare_char_inv c C) as (N & Q & D).
    unfold parse_process_char. simpl. rewrite N, D.
    rewrite add_char_below_limit by lia.
    rewrite IH; [|exact OK|rewrite str_app_length; simpl; lia].
    rewrite str_app_assoc. reflexivity.
Qed.

(** Inside the quotes every character but the quote is added to the
    field, the comma as any other. *)
Lemma quoted_chars (body acc : string) (fs : list string) (rest : string) :
  all_chars not_quote body = true ->
  Z.of_nat (String.length acc + String.length body) <= field_limit ->
  parse_line (mk_Reader IN_QUOTED_FIELD fs acc) (body ++ rest)
  = parse_line (mk_Reader IN_QUOTED_FIELD fs (acc ++ body)) rest.
Proof.
  revert acc. induction body as [|c body IH]; intros acc OK L; simpl in *.
  - rewrite str_app_nil_r. reflexivity.
  - apply andb_true_iff in OK. destruct OK as [C OK].
    unfold not_quote in C. apply negb_true_iff in C.
    unfold parse_process_char. simpl. rewrite C.
    rewrite add_char_below_limit by lia.
    rewrite IH; [|exact OK|rewrite str_app_length; simpl; lia].
    rewrite str_app_assoc. reflexivity.
Qed.

Lemma field_ok_inv (f : written_field) :
  field_ok f = true ->
  Z.of_nat (String.length (field_text f)) <= field_limit
  /\ match f with
     | Quoted body => all_chars not_quote body = true
     | Bare body => all_chars bare_char body = true
     end.
Proof.
  unfold field_ok. rewrite andb_true_iff, Z.leb_le.
  destruct f; tauto.
Qed.

(** A field followed by a comma: the field is saved with its text and the
    reader expects the next field. *)
Lemma field_then_comma (f : written_field) (fs : list string) (rest : string) :
  field_ok f = true ->
  parse_line (mk_Reader START_FIELD fs EmptyString)
             (render f ++ String delimiter rest)
  = parse_line (mk_Reader START_FIELD (fs ++ [field_text f]) EmptyString) rest.
Proof.
  intros OK. destruct (field_ok_inv f OK) as [L B].
  destruct f as [body|body]; simpl in *.
  - unfold quoted. simpl. unfold set_state. simpl.
    rewrite str_app_assoc. rewrite quoted_chars; [|exact B|simpl; lia].
    reflexivity.
  - destruct body as [|c body]; simpl in *; [reflexivity|].
    apply andb_true_iff in B. destruct B as [C B].
    destruct (bare_char_inv c C) as (N & Q & D).
    unfold parse_process_char at 1. simpl. rewrite N, Q, D.
    unfold set_state. simpl. rewrite bare_chars; [|exact B|simpl; lia].
    reflexivity.
Qed.

(** The last field of the line, with or without the line feed: the field
    is saved and the record is complete. *)
Lemma field_then_end (f : written_field) (fs : list string) (terminated : bool) :
  field_ok f = true ->
  parse_line (mk_Reader START_FIELD fs EmptyString)
             (render f ++ line_end terminated)
  = Some (mk_Reader START_RECORD (fs ++ [field_text f]) EmptyString).
Proof.
  intros OK. destruct (field_ok_inv f OK) as [L B].
  destruct f as [body|body]; simpl in *.
  - unfold quoted. simpl. unfold set_state. simpl.
    rewrite str_app_assoc. rewrite quoted_chars; [|exact B|simpl; lia].
    destruct terminated; reflexivity.
  - destruct body as [|c body]; simpl in *.
    + destruct terminated; reflexivity.
    + apply andb_true_iff in B. destruct B as [C B].
      destruct (bare_char_inv c C) as (N & Q & D).
      unfold parse_process_char at 1. simpl. rewrite N, Q, D.
      unfold set_state. simpl. rewrite bare_chars; [|exact B|simpl; lia].
      destruct terminated; reflexivity.
Qed.

Lemma fields_then_end (f : written_field) (more : list written_field)
    (fs : list string) (terminated : bool) :
  forallb field_ok (f :: more) = true ->
  parse_line (mk_Reader START_FIELD fs EmptyString)
             (join (f :: more) ++ line_end terminated)
  = Some (mk_Reader START_RECORD (fs ++ map field_text (f :: more))
                    EmptyString).
Proof.
  revert f fs. induction more as [|g more IH]; intros f fs OK.
  - simpl in OK. rewrite andb_true_r in OK.
    simpl. apply field_then_end. exact OK.
  - change (forallb field_ok (f :: g :: more))
      with (field_ok f && forallb field_ok (g :: more)) in OK.
    apply andb_true_iff in OK. destruct OK as [OKf OK].
    change (join (f :: g :: more))
      with (render f ++ String delimiter (join (g :: more)))%string.
    rewrite str_app_assoc.
    change (String delimiter (join (g :: more)) ++ line_end terminated)%string
      with (String delimiter (join (g :: more) ++ line_end terminated)).
    rewrite field_then_comma by exact OKf.
    rewrite IH by exact OK.
    change (map field_text (f :: g :: more))
      with ([field_text f] ++ map field_text (g :: more))%list.
    rewrite app_assoc. reflexivity.
Qed.

(** At the start of a record a character that is no line break is handled
    as at the start of a field. *)
Lemma start_of_record (f : written_field) (rest : string) :
  field_ok f = true ->
  parse_line new_reader (render f ++ String delimiter rest)
  = parse_line (mk_Reader START_FIELD [] EmptyString)
               (render f ++ String delimiter rest).
Proof.
  intros OK. destruct (field_ok_inv f OK) as [_ B].
  destruct f as [body|body]; [reflexivity|].
  destruct body as [|c body]; [reflexivity|].
  simpl in B. apply andb_true_iff in B. destruct B as [C _].
  destruct (bare_char_inv c C) as (N & _).
  simpl. unfold parse_process_char. simpl. rewrite N. reflexivity.
Qed.

(** A line of two or more fields is read as one record with the texts of
    its fields. *)
Lemma reader_one_line (f g : written_field) (more : list written_field)
    (terminated : bool) :
  forallb field_ok (f :: g :: more) = true ->
  reader [(join (f :: g :: more) ++ line_end terminated)%string]
  = [inr (map field_text (f :: g :: more))].
Proof.
  intros OK. unfold reader, iterate.
  assert (OKf : field_ok f = true).
  { simpl in OK. apply andb_true_iff in OK. tauto. }
  change (join (f :: g :: more))
    with (render f ++ String delimiter (join (g :: more)))%string.
  rewrite str_app_assoc.
  change (String delimiter (join (g :: more)) ++ line_end terminated)%string
    with (String delimiter (join (g :: more) ++ line_end terminated)).
  rewrite start_of_record by exact OKf.
  change (String delimiter (join (g :: more) ++ line_end terminated))
    with (String delimiter (join (g :: more)) ++ line_end terminated)%string.
  rewrite <- str_app_assoc.
  change (render f ++ String delimiter (join (g :: more)))%string
    with (join (f :: g :: more)).
  rewrite fields_then_end by exact OK.
  reflexivity.
Qed.

End OneLine.

Example hello_world_song_name :
  songs (txn (snd (main
    [(quoted "January 5, 2024 at 3:45PM" ++ "," ++ quoted "Hello, World"
      ++ ",Artist X,abc123,http://link" ++ newline)%string] empty_server)))
  = [mk_Song 1 "Hello, World" 1 "abc123" "http://link"].
Proof. vm_compute. reflexivity. Qed.

(** The example row of the specification written without quotes: the comma
    of the timestamp separates two fields, the record has six. *)
Example unquoted_example_has_six_fields :
  Csv.reader ["January 5, 2024 at 3:45PM,Song A,Artist X,abc123,http://link"]
  = [inr ["January 5"; " 2024 at 3:45PM"; "Song A"; "Artist X"; "abc123";
          "http://link"]].
Proof. vm_compute. reflexivity. Qed.

(** ** The look-up-or-insert blocks on their own

    What the artist block and the song block do when they are run, apart
    from the history INSERT that ends every pass through the loop body. *)

Section LookupOrInsert.

Lemma by_name_exact (name : string) (a : Artist) :
  by_name name a = true <-> artist_name a = name.
Proof. unfold by_name. apply String.eqb_eq. Qed.

Lemma find_last {A} (f : A -> bool) (l : list A) (x : A) :
  find f l = None -> f x = true -> find f (l ++ [x]) = Some x.
Proof.
  intros N T. induction l as [|y l IH]; simpl in *.
  - rewrite T. reflexivity.
  - destruct (f y); [discriminate|]. apply IH. exact N.
Qed.

Lemma find_none_last {A} (f : A -> bool) (l : list A) (x : A) :
  find f l = None -> f x = false -> find f (l ++ [x]) = None.
Proof.
  intros N T. induction l as [|y l IH]; simpl in *.
  - rewrite T. reflexivity.
  - destruct (f y); [discriminate|]. apply IH. exact N.
Qed.

Lemma no_artist_beyond (l : list Artist) (n id : Z) :
  (forall x, In x l -> artist_id x <= n) -> n < id ->
  existsb (fun a => artist_id a =? id) l = false.
Proof.
  intros B L. induction l as [|x l IH]; [reflexivity|]. simpl.
  rewrite IH by (intros y I; apply B; right; exact I).
  assert (X : artist_id x <= n) by (apply B; left; reflexivity).
  rewrite orb_false_r. apply Z.eqb_neq. lia.
Qed.

(** Two names that differ, were it in case only, and that no artist has
    yet: each gets a row of its own, when the sequence has two ids left
    and gave every id that is in the table. *)
Lemma artist_block_two_names (a b : string) (p : Process) :
  handles_open p = true ->
  txn_failed p = false ->
  has_nul a = false ->
  has_nul b = false ->
  a <> b ->
  find (by_name a) (artists (txn p)) = None ->
  find (by_name b) (artists (txn p)) = None ->
  artists_id_seq (server p) + 2 <= artists_id_max (server p) ->
  (forall x, In x (artists (txn p)) ->
             artist_id x <= artists_id_seq (server p)) ->
  let n := artists_id_seq (server p) in
  exists p1 p2,
    insert_artist_if_not_exists a p = (Ok (VInt (n + 1)), p1)
    /\ insert_artist_if_not_exists b p1 = (Ok (VInt (n + 2)), p2)
    /\ artists (txn p2)
       = (artists (txn p) ++ [mk_Artist (n + 1) a; mk_Artist (n + 2) b])%list.
Proof.
  intros H T Na Nb D Fa Fb M B. cbv zeta.
  set (a1 := mk_Artist (artists_id_seq (server p) + 1) a).
  assert (M1 : artist_insertable (server p) (txn p) = true).
  { unfold artist_insertable. apply andb_true_iff. split.
    - apply Z.leb_le. lia.
    - rewrite (no_artist_beyond _ _ _ B); [reflexivity|lia]. }
  assert (M2 : artist_insertable (server (add_artist a1 p))
                                 (txn (add_artist a1 p)) = true).
  { unfold artist_insertable. simpl. apply andb_true_iff. split.
    - apply Z.leb_le. lia.
    - rewrite existsb_app, (no_artist_beyond _ _ _ B) by lia. simpl.
      rewrite orb_false_r. apply negb_true_iff. apply Z.eqb_neq. lia. }
  exists (add_artist a1 p). eexists. split; [|split].
  - rewrite artist_block, H, Na, T, Fa. cbv zeta. rewrite M1. reflexivity.
  - rewrite artist_block.
    assert (H' : handles_open (add_artist a1 p) = true) by exact H.
    assert (T' : txn_failed (add_artist a1 p) = false) by exact T.
    rewrite H', Nb, T'.
    assert (Fb' : find (by_name b) (artists (txn (add_artist a1 p))) = None).
    { simpl. apply find_none_last; [exact Fb|].
      unfold by_name. simpl. apply String.eqb_neq. exact D. }
    rewrite Fb'. cbv zeta. rewrite M2. simpl.
    replace (artists_id_seq (server p) + 1 + 1)
        with (artists_id_seq (server p) + 2) by lia.
    reflexivity.
  - simpl. rewrite <- app_assoc. reflexivity.
Qed.

(** A name that an artist has already: the id of the first such artist is
    returned and nothing is inserted. *)
Lemma artist_block_reuses (name : string) (a : Artist) (p : Process) :
  handles_open p = true ->
  txn_failed p = false ->
  has_nul name = false ->
  find (by_name name) (artists (txn p)) = Some a ->
  insert_artist_if_not_exists name p = (Ok (VInt (artist_id a)), p).
Proof. intros H T N F. rewrite artist_block, H, N, T, F. reflexivity. Qed.

(** One spotify_id twice, not yet in the table, on a server that takes a
    new song: the first call inserts the song with its own name, artist and
    link, the second call returns the same id and inserts nothing. *)
Lemma song_block_first_wins (name1 name2 link1 link2 spotify_id : string)
    (artist1 artist2 : Z) (p : Process) :
  handles_open p = true ->
  txn_failed p = false ->
  has_nul spotify_id = false ->
  has_nul name1 = false ->
  has_nul link1 = false ->
  find (by_spotify_id spotify_id) (songs (txn p)) = None ->
  song_insertable (server p) (txn p) = true ->
  let id := songs_id_seq (server p) + 1 in
  exists p1,
    insert_song_if_not_exists name1 (VInt artist1) spotify_id link1 p
    = (Ok (VInt id), p1)
    /\ insert_song_if_not_exists name2 (VInt artist2) spotify_id link2 p1
       = (Ok (VInt id), p1)
    /\ songs (txn p1)
       = (songs (txn p) ++ [mk_Song id name1 artist1 spotify_id link1])%list.
Proof.
  intros H T N N1 L1 F M. cbv zeta.
  eexists. split; [|split].
  - rewrite song_block, H, N, T, F, N1, L1. simpl. rewrite M. reflexivity.
  - rewrite song_block. simpl.
    assert (H' : handles_open
                   (add_song (mk_Song (songs_id_seq (server p) + 1) name1
                                      artist1 spotify_id link1) p) = true)
      by exact H.
    rewrite H', N, T. simpl.
    rewrite (find_last _ _ _ F); [reflexivity|].
    unfold by_spotify_id. simpl. apply String.eqb_refl.
  - reflexivity.
Qed.

Lemma artist_block_inserts (name : string) (p : Process) :
  let t := txn p in
  let t' := txn (snd (insert_artist_if_not_exists name p)) in
  (artists t' = artists t \/ exists a, artists t' = (artists t ++ [a])%list)
  /\ songs t' = songs t
  /\ user_listening_history t' = user_listening_history t.
Proof.
  cbv zeta. rewrite artist_block.
  destruct (handles_open p); [|simpl; auto].
  destruct (has_nul name); [simpl; auto|].
  destruct (txn_failed p); [simpl; auto|].
  destruct (find _ _); cbv zeta; [|destruct (artist_insertable _ _)];
    simpl; repeat split; eauto.
Qed.

Lemma song_block_inserts (song_name : string) (artist : Z)
    (spotify_id link : string) (p : Process) :
  let t := txn p in
  let t' := txn (snd (insert_song_if_not_exists song_name (VInt artist)
                        spotify_id link p)) in
  artists t' = artists t
  /\ (songs t' = songs t \/ exists s, songs t' = (songs t ++ [s])%list)
  /\ user_listening_history t' = user_listening_history t.
Proof.
  cbv zeta. rewrite song_block.
  destruct (handles_open p); [|simpl; auto].
  destruct (has_nul spotify_id); [simpl; auto|].
  destruct (txn_failed p); [simpl; auto|].
  destruct (find _ _); [simpl; auto|].
  destruct (has_nul song_name || has_nul link); [simpl; auto|].
  cbv zeta. destruct (song_insertable _ _); simpl; repeat split; eauto.
Qed.

(** One pass through the loop body inserts at most one artist, at most one
    song, and no history entry. *)
Lemma process_row_inserts (row : list string) (p : Process) :
  let t := txn p in
  let t' := txn (snd (process_row row p)) in
  (artists t' = artists t \/ exists a, artists t' = (artists t ++ [a])%list)
  /\ (songs t' = songs t \/ exists s, songs t' = (songs t ++ [s])%list)
  /\ user_listening_history t' = user_listening_history t.
Proof.
  cbv zeta. rewrite process_row_eq.
  destruct (unpack row) as [[[[[ts sn] an] sid] lk]|e]; [|simpl; auto].
  destruct (convert_date ts) as [d|e]; [|simpl; auto].
  pose proof (artist_block_inserts an p) as IA. cbv zeta in IA.
  destruct (insert_artist_if_not_exists an p) as [[aid|e] p1] eqn:EA;
    simpl in IA; [|simpl; intuition].
  destruct (artist_block_returns _ _ _ _ EA) as [a ->].
  pose proof (song_block_inserts sn a sid lk p1) as IS. cbv zeta in IS.
  destruct (insert_song_if_not_exists sn (VInt a) sid lk p1) as [[s|e] p2];
    simpl in IS; [rewrite history_block_txn|simpl];
    destruct IA as (A1 & A2 & A3); destruct IS as (S1 & S2 & S3);
    rewrite S1, S3, A3; repeat split; try assumption;
    rewrite <- A2; exact S2.
Qed.

End LookupOrInsert.

(** * Further properties of the script *)

(** ** The run as a function of the first record *)

Section FirstRecord.

Lemma frame_handles (p p' : Process) :
  frame p p' -> handles_open p' = handles_open p.
Proof.
  intros (_ & C & N & _). unfold handles_open. rewrite C, N. reflexivity.
Qed.

Lemma add_artist_open (a : Artist) (p : Process) :
  handles_open (add_artist a p) = handles_open p.
Proof. reflexivity. Qed.

Lemma history_block_exception (song : Z) (date_time : datetime)
    (p : Process) :
  fst (insert_listening_history (VInt song) date_time p) = Raise DatabaseError.
Proof.
  rewrite history_block. destruct (_ && _); reflexivity.
Qed.

Lemma song_block_exception (song_name spotify_id link : string) (artist : Z)
    (date_time : datetime) (p : Process) :
  handles_open p = true ->
  txn_failed p = false ->
  has_nul spotify_id = false ->
  fst (match insert_song_if_not_exists song_name (VInt artist) spotify_id
               link p with
       | (Raise e, p2) => (Raise e, p2)
       | (Ok song_id, p2) => insert_listening_history song_id date_time p2
       end)
  = Raise (match find (by_spotify_id spotify_id) (songs (txn p)) with
           | Some _ => DatabaseError
           | None => if has_nul song_name || has_nul link
                     then NulValueError else DatabaseError
           end).
Proof.
  intros H F N. rewrite song_block, H, N, F.
  destruct (find _ _) as [s|].
  - apply history_block_exception.
  - destruct (has_nul song_name || has_nul link); [reflexivity|].
    cbv zeta. destruct (song_insertable _ _); [|reflexivity].
    apply history_block_exception.
Qed.

Lemma process_row_exception (row : list string) (p : Process) :
  handles_open p = true ->
  txn_failed p = false ->
  fst (process_row row p)
  = Raise (exception_of_record (txn p) (artist_insertable (server p) (txn p))
             row).
Proof.
  intros H F. rewrite process_row_eq.
  unfold exception_of_record, convert_date.
  destruct (unpack row) as [[[[[ts sn] an] sid] lk]|e]; [|reflexivity].
  destruct (strptime ts) as [d|]; [|reflexivity].
  rewrite artist_block, H, F.
  destruct (has_nul an); [reflexivity|].
  destruct (find (by_name an) (artists (txn p))) as [a|];
    cbv beta iota zeta.
  - destruct (has_nul sid) eqn:N.
    + rewrite song_block, H, N. reflexivity.
    + rewrite (song_block_exception sn sid lk _ d p H F N).
      destruct (artist_insertable (server p) (txn p)); reflexivity.
  - destruct (artist_insertable (server p) (txn p)); [|reflexivity].
    destruct (has_nul sid) eqn:N.
    + rewrite song_block, add_artist_open, H, N. reflexivity.
    + apply (song_block_exception sn sid lk _ d
               (add_artist (mk_Artist (artists_id_seq (server p) + 1) an) p));
        assumption.
Qed.

(** The loop never gets to a second item. *)
Lemma for_each_row_first (x : exn + list string)
    (rest : list (exn + list string)) (p : Process) :
  for_each_row (x :: rest) p = for_each_row [x] p.
Proof.
  destruct x as [e|row]; simpl; [reflexivity|].
  unfold bind_M.
  destruct (process_row_raises row p) as [e E].
  destruct (process_row row p) as [[[]|e'] p1]; simpl in E;
    [discriminate|reflexivity].
Qed.

Lemma raised_main (lines : list string) (s : Server) :
  raised (main lines s) = exception_of_first_item s (Csv.reader lines).
Proof.
  destruct (main_cases lines s) as [(e & p' & H & E)|[R E]]; rewrite E.
  - destruct (Csv.reader lines) as [|[e'|row] rest].
    + discriminate.
    + simpl in H. inversion H. reflexivity.
    + rewrite for_each_row_first in H. simpl in H. unfold bind_M in H.
      pose proof (process_row_exception row (opened s) eq_refl eq_refl) as X.
      destruct (process_row row (opened s)) as [[[]|e0] p0]; simpl in X;
        [discriminate|].
      inversion X. inversion H. subst. reflexivity.
  - rewrite R. reflexivity.
Qed.

End FirstRecord.

(** ** The reader: one record per line at most, one at least from a file
    that has a line *)

Section Records.

Import Csv.

Lemma end_of_line_state (r r' : Reader) :
  parse_process_char r None = Some r' ->
  state r' = START_RECORD \/ state r' = IN_QUOTED_FIELD.
Proof.
  unfold parse_process_char.
  destruct (state r) eqn:S; simpl; intros H; inversion H; subst; simpl; auto.
Qed.

Lemma parse_line_state (line : string) (r r' : Reader) :
  parse_line r line = Some r' ->
  state r' = START_RECORD \/ state r' = IN_QUOTED_FIELD.
Proof.
  revert r. induction line as [|c line IH]; intros r; simpl.
  - apply end_of_line_state.
  - destruct (parse_process_char r (Some c)) as [r1|]; [|discriminate].
    apply IH.
Qed.

Lemma iterate_pending (lines : list string) (r : Reader) :
  state r = IN_QUOTED_FIELD -> iterate r lines <> [].
Proof.
  revert r. induction lines as [|line lines IH]; intros r S; simpl.
  - rewrite S. rewrite orb_true_r. discriminate.
  - destruct (parse_line r line) as [r'|] eqn:P; [|discriminate].
    destruct (parse_line_state _ _ _ P) as [E|E]; rewrite E.
    + discriminate.
    + apply IH. exact E.
Qed.

Lemma iterate_length (lines : list string) (r : Reader) :
  (List.length (iterate r lines)
   <= List.length lines + (if pending_at_end r then 1 else 0))%nat.
Proof.
  revert r. induction lines as [|line lines IH]; intros r; simpl.
  - unfold pending_at_end. destruct (_ || _); simpl; lia.
  - destruct (parse_line r line) as [r'|] eqn:P; [|simpl; lia].
    destruct (parse_line_state _ _ _ P) as [E|E]; rewrite E.
    + simpl. specialize (IH (parse_reset r')).
      unfold pending_at_end in IH. simpl in IH. lia.
    + specialize (IH r'). destruct (pending_at_end r'); lia.
Qed.

Lemma reader_empty (lines : list string) : reader lines = [] <-> lines = [].
Proof.
  split.
  - destruct lines as [|line lines]; [reflexivity|].
    unfold reader. simpl.
    destruct (parse_line new_reader line) as [r'|] eqn:P; [|discriminate].
    destruct (parse_line_state _ _ _ P) as [E|E]; rewrite E.
    + discriminate.
    + intros H. exfalso. exact (iterate_pending _ _ E H).
  - intros ->. reflexivity.
Qed.

End Records.

(** X1.  The exception a run ends with is decided by the first item the
    reader yields and by what the database holds: none when the reader
    yields nothing; the reader's own error; [MalformedRowError] for a
    record that does not have five fields; [DateParseError] for one of five
    fields whose first [strptime] rejects; the [ValueError] of psycopg2
    when the artist name holds a NUL character, when the spotify_id does
    and the artist block got through, or when the song name or the link
    does and no song of the database has the spotify_id; [DatabaseError]
    for any other record, at the artist INSERT when the artist is new and
    the sequence of ids is exhausted, at the song INSERT or at the history
    INSERT otherwise. *)
Theorem X1_exception_of_run (lines : list string) (s : Server) :
  raised (main lines s) = exception_of_first_item s (Csv.reader lines).
Proof. apply raised_main. Qed.

(** X2.  The run ends without an exception exactly when the input file has
    no line at all. *)
Theorem X2_success_iff_no_lines (lines : list string) (s : Server) :
  raised (main lines s) = None <-> lines = [].
Proof.
  rewrite raised_main. rewrite <- reader_empty.
  destruct (Csv.reader lines) as [|[e|row] rest]; simpl;
    split; intros H; try reflexivity; discriminate.
Qed.

(** X3.  Two input files whose first record is the same give the same run,
    whatever follows that record: the loop never gets to a second one. *)
Theorem X3_only_first_record_counts
    (lines1 lines2 : list string) (s : Server) (x : exn + list string)
    (rest1 rest2 : list (exn + list string)) :
  Csv.reader lines1 = x :: rest1 ->
  Csv.reader lines2 = x :: rest2 ->
  main lines1 s = main lines2 s.
Proof.
  intros R1 R2. unfold main, script, bind_M, with_open.
  rewrite R1, R2.
  rewrite (for_each_row_first x rest1), (for_each_row_first x rest2).
  reflexivity.
Qed.

Lemma X3_only_first_record_counts_witness :
  main [example_line] empty_server
  = main [example_line; short_line; iso_line] empty_server.
Proof.
  apply (X3_only_first_record_counts [example_line]
           [example_line; short_line; iso_line] empty_server
           (inr ["January 5, 2024 at 3:45PM"; "Song A"; "Artist X"; "abc123";
                 "http://link"])
           [] [inr ["Song A"; "Artist X"];
               inr ["2024-01-05 15:45"; "Song A"; "Artist X"; "abc123";
                    "http://link"]]);
    vm_compute; reflexivity.
Defined.

(** X4.  No run changes the rows the database holds: whatever the input
    and whatever the database, the committed tables after the run are the
    committed tables before it. *)
Theorem X4_committed_rows_never_change (lines : list string) (s : Server) :
  data (server_after (main lines s)) = data s.
Proof. apply main_data. Qed.

(** X5.  The success line is printed, and a commit is made, exactly in the
    runs that end without an exception; a run that ends in an exception
    prints nothing and commits nothing. *)
Theorem X5_success_line_and_commit (lines : list string) (s : Server) :
  let o := main lines s in
  stdout (snd o)
  = match raised o with
    | None => ["Data imported successfully!"]
    | Some _ => []
    end
  /\ commits (snd o) = match raised o with None => 1%nat | Some _ => 0%nat end.
Proof.
  cbv zeta.
  destruct (raised (main lines s)) as [e|] eqn:R.
  - destruct (main_raised _ _ _ R) as (_ & C & O & _). auto.
  - destruct (main_cases lines s) as [(e & p' & _ & E)|[_ E]];
      rewrite E in *; [discriminate|]. simpl. auto.
Qed.

(** X6.  However many records the input has, the loop inserts at most one
    artist and at most one song into the tables of its transaction, and
    never a history entry. *)
Theorem X6_at_most_one_insert_per_run
    (items : list (exn + list string)) (p : Process) :
  let t := txn p in
  let t' := txn (snd (for_each_row items p)) in
  (artists t' = artists t \/ exists a, artists t' = (artists t ++ [a])%list)
  /\ (songs t' = songs t \/ exists s, songs t' = (songs t ++ [s])%list)
  /\ user_listening_history t' = user_listening_history t.
Proof.
  cbv zeta. destruct items as [|[e|row] rest].
  - simpl. auto.
  - simpl. auto.
  - rewrite for_each_row_first. simpl. unfold bind_M.
    pose proof (process_row_inserts row p) as I. cbv zeta in I.
    destruct (process_row_raises row p) as [e E].
    destruct (process_row row p) as [[[]|e'] p1]; simpl in *;
      [discriminate|exact I].
Qed.

(** X7.  The reader yields at most one item per line of the file, and it
    yields nothing only for a file without lines. *)
Theorem X7_records_and_lines (lines : list string) :
  (List.length (Csv.reader lines) <= List.length lines)%nat
  /\ (Csv.reader lines = [] <-> lines = []).
Proof.
  split; [|apply reader_empty].
  pose proof (iterate_length lines Csv.new_reader) as L.
  unfold pending_at_end in L. simpl in L. unfold Csv.reader. lia.
Qed.

(** ** What the two look-up-or-insert blocks return and keep *)

Section Keys.

Lemma add_artist_handles (a : Artist) (p : Process) :
  handles_open (add_artist a p) = handles_open p.
Proof. reflexivity. Qed.

Lemma add_song_handles (s : Song) (p : Process) :
  handles_open (add_song s p) = handles_open p.
Proof. reflexivity. Qed.

Lemma NoDup_snoc {A} (l : list A) (x : A) :
  NoDup l -> ~ In x l -> NoDup (l ++ [x]).
Proof.
  induction 1 as [|y l N D IH]; intros X; simpl.
  - constructor; [intros []|constructor].
  - constructor.
    + intros I. apply in_app_or in I. destruct I as [I|[E|[]]].
      * exact (N I).
      * apply X. left. symmetry. exact E.
    + apply IH. intros I. apply X. right. exact I.
Qed.

Lemma find_none_name (name : string) (l : list Artist) :
  find (by_name name) l = None -> ~ In name (map artist_name l).
Proof.
  induction l as [|a l IH]; simpl; [tauto|].
  destruct (by_name name a) eqn:B; [discriminate|].
  intros F [E|I]; [|exact (IH F I)].
  apply by_name_exact in E. congruence.
Qed.

Lemma find_none_spotify_id (spotify_id : string) (l : list Song) :
  find (by_spotify_id spotify_id) l = None ->
  ~ In spotify_id (map song_spotify_id l).
Proof.
  induction l as [|s l IH]; simpl; [tauto|].
  destruct (by_spotify_id spotify_id s) eqn:B; [discriminate|].
  intros F [E|I]; [|exact (IH F I)].
  unfold by_spotify_id in B. apply String.eqb_neq in B. congruence.
Qed.

Lemma artist_block_unique (name : string) (p : Process) :
  unique_keys (txn p) ->
  unique_keys (txn (snd (insert_artist_if_not_exists name p))).
Proof.
  intros [UA US]. rewrite artist_block.
  destruct (handles_open p); [|split; assumption].
  destruct (has_nul name); [split; assumption|].
  destruct (txn_failed p); [split; assumption|].
  destruct (find (by_name name) (artists (txn p))) as [a|] eqn:F;
    [split; assumption|].
  cbv zeta. destruct (artist_insertable _ _); [|split; assumption].
  split; simpl; [|exact US].
  rewrite map_app. simpl. apply NoDup_snoc; [exact UA|].
  apply find_none_name. exact F.
Qed.

Lemma song_block_unique (song_name : string) (artist : Z)
    (spotify_id link : string) (p : Process) :
  unique_keys (txn p) ->
  unique_keys (txn (snd (insert_song_if_not_exists song_name (VInt artist)
                           spotify_id link p))).
Proof.
  intros [UA US]. rewrite song_block.
  destruct (handles_open p); [|split; assumption].
  destruct (has_nul spotify_id); [split; assumption|].
  destruct (txn_failed p); [split; assumption|].
  destruct (find (by_spotify_id spotify_id) (songs (txn p))) as [s|] eqn:F;
    [split; assumption|].
  destruct (has_nul song_name || has_nul link); [split; assumption|].
  cbv zeta. destruct (song_insertable _ _); [|split; assumption].
  split; simpl; [exact UA|].
  rewrite map_app. simpl. apply NoDup_snoc; [exact US|].
  apply find_none_spotify_id. exact F.
Qed.

Lemma process_row_unique (row : list string) (p : Process) :
  unique_keys (txn p) -> unique_keys (txn (snd (process_row row p))).
Proof.
  intros U. rewrite process_row_eq.
  destruct (unpack row) as [[[[[ts sn] an] sid] lk]|e]; [|exact U].
  destruct (convert_date ts) as [d|e]; [|exact U].
  pose proof (artist_block_unique an p U) as UA.
  destruct (insert_artist_if_not_exists an p) as [[aid|e] p1] eqn:EA;
    [|exact UA].
  destruct (artist_block_returns _ _ _ _ EA) as [a ->].
  pose proof (song_block_unique sn a sid lk p1 UA) as US.
  destruct (insert_song_if_not_exists sn (VInt a) sid lk p1) as [[s|e] p2];
    [rewrite history_block_txn|]; exact US.
Qed.

Lemma for_each_row_unique (items : list (exn + list string)) (p : Process) :
  unique_keys (txn p) -> unique_keys (txn (snd (for_each_row items p))).
Proof.
  revert p. induction items as [|[e|row] items IH]; intros p U; simpl;
    [exact U|exact U|].
  unfold bind_M. pose proof (process_row_unique row p U) as U1.
  destruct (process_row row p) as [[[]|e] p1]; simpl in U1.
  - apply IH. exact U1.
  - exact U1.
Qed.

End Keys.

(** X8.  When the artist block returns, the id it returns is the id of the
    first artist of exactly that name in the table as it is then, and
    running the block again for the same name returns the same id and
    changes nothing. *)
Theorem X8_artist_block_finds_what_it_left
    (name : string) (p p1 : Process) (v : value) :
  insert_artist_if_not_exists name p = (Ok v, p1) ->
  exists a,
    v = VInt (artist_id a)
    /\ find (by_name name) (artists (txn p1)) = Some a
    /\ artist_name a = name
    /\ insert_artist_if_not_exists name p1 = (Ok v, p1).
Proof.
  rewrite artist_block.
  destruct (handles_open p) eqn:H; [|discriminate].
  destruct (has_nul name) eqn:N; [discriminate|].
  destruct (txn_failed p) eqn:T; [discriminate|].
  destruct (find (by_name name) (artists (txn p))) as [a|] eqn:F;
    cbv zeta; [|destruct (artist_insertable _ _); [|discriminate]];
    intros E; inversion E; subst; clear E.
  - exists a. repeat split.
    + exact F.
    + apply by_name_exact. apply (find_some _ _ F).
    + rewrite artist_block, H, N, T, F. reflexivity.
  - set (a := mk_Artist (artists_id_seq (server p) + 1) name).
    assert (F' : find (by_name name) (artists (txn (add_artist a p))) = Some a).
    { simpl. apply find_last; [exact F|]. apply by_name_exact. reflexivity. }
    assert (T' : txn_failed (add_artist a p) = false) by exact T.
    exists a. repeat split.
    + exact F'.
    + rewrite artist_block, add_artist_handles, H, N, T', F'. reflexivity.
Qed.

Lemma X8_artist_block_finds_what_it_left_witness :
  exists a,
    VInt 1 = VInt (artist_id a)
    /\ find (by_name "Drake")
         (artists (txn (add_artist (mk_Artist 1 "Drake") (opened empty_server))))
       = Some a
    /\ artist_name a = "Drake"
    /\ insert_artist_if_not_exists "Drake"
         (add_artist (mk_Artist 1 "Drake") (opened empty_server))
       = (Ok (VInt 1), add_artist (mk_Artist 1 "Drake") (opened empty_server)).
Proof.
  apply (X8_artist_block_finds_what_it_left "Drake" (opened empty_server)).
  vm_compute. reflexivity.
Defined.

(** X9.  When the song block returns, the id it returns is the id of the
    first song of that spotify_id in the table as it is then, and running
    the block again for the same spotify_id, with whatever name, artist and
    link, returns the same id and changes nothing. *)
Theorem X9_song_block_first_wins
    (song_name spotify_id link : string) (artist : Z) (p p1 : Process)
    (v : value) :
  insert_song_if_not_exists song_name (VInt artist) spotify_id link p
  = (Ok v, p1) ->
  exists s,
    v = VInt (song_id s)
    /\ find (by_spotify_id spotify_id) (songs (txn p1)) = Some s
    /\ song_spotify_id s = spotify_id
    /\ forall (song_name' link' : string) (artist' : Z),
         insert_song_if_not_exists song_name' (VInt artist') spotify_id link' p1
         = (Ok v, p1).
Proof.
  rewrite song_block.
  destruct (handles_open p) eqn:H; [|discriminate].
  destruct (has_nul spotify_id) eqn:N; [discriminate|].
  destruct (txn_failed p) eqn:T; [discriminate|].
  destruct (find (by_spotify_id spotify_id) (songs (txn p))) as [s|] eqn:F.
  - intros E; inversion E; subst; clear E.
    exists s. repeat split.
    + exact F.
    + pose proof (find_some _ _ F) as [_ B].
      unfold by_spotify_id in B. apply String.eqb_eq in B. exact B.
    + intros n' l' a'. rewrite song_block, H, N, T, F. reflexivity.
  - destruct (has_nul song_name || has_nul link); [discriminate|].
    cbv zeta. destruct (song_insertable _ _); [|discriminate].
    intros E; inversion E; subst; clear E.
    set (s := mk_Song (songs_id_seq (server p) + 1) song_name artist
                      spotify_id link).
    assert (F' : find (by_spotify_id spotify_id) (songs (txn (add_song s p)))
                 = Some s).
    { simpl. apply find_last; [exact F|].
      unfold by_spotify_id. simpl. apply String.eqb_refl. }
    assert (T' : txn_failed (add_song s p) = false) by exact T.
    exists s. repeat split.
    + exact F'.
    + intros n' l' a'.
      rewrite song_block, add_song_handles, H, N, T', F'. reflexivity.
Qed.

Lemma X9_song_block_first_wins_witness :
  exists s,
    VInt 1 = VInt (song_id s)
    /\ find (by_spotify_id "abc123") (songs (txn (connect drake_server)))
       = Some s
    /\ song_spotify_id s = "abc123"
    /\ forall (song_name' link' : string) (artist' : Z),
         insert_song_if_not_exists song_name' (VInt artist') "abc123" link'
           (connect drake_server)
         = (Ok (VInt 1), connect drake_server).
Proof.
  apply (X9_song_block_first_wins "Song B" "abc123" "http://other" 7
           (connect drake_server)).
  vm_compute. reflexivity.
Defined.

(** X10.  The loop keeps names and spotify_ids unique: when no two artists
    of the transaction's table have one name and no two songs one
    spotify_id, the same is true in the state the loop ends in. *)
Theorem X10_keys_stay_unique (items : list (exn + list string)) (p : Process) :
  unique_keys (txn p) ->
  unique_keys (txn (snd (for_each_row items p))).
Proof. apply for_each_row_unique. Qed.

Lemma X10_keys_stay_unique_witness :
  unique_keys (txn (connect drake_server))
  /\ unique_keys
       (txn (snd (for_each_row (Csv.reader drake_lines) (connect drake_server)))).
Proof.
  assert (U : unique_keys (txn (connect drake_server))).
  { split; simpl; (constructor; [intros []|constructor]). }
  split; [exact U|].
  apply (X10_keys_stay_unique (Csv.reader drake_lines) (connect drake_server)).
  exact U.
Defined.

(** X11.  The loop keeps the references whole: when every song of the
    transaction's tables names an artist that is there and every history
    entry a song that is there, the same is true in the state the loop ends
    in. *)
Theorem X11_references_stay_whole
    (items : list (exn + list string)) (p : Process) :
  referential_integrity (txn p) ->
  referential_integrity (txn (snd (for_each_row items p))).
Proof.
  apply grows_referential_integrity. apply for_each_row_grows.
Qed.

Lemma X11_references_stay_whole_witness :
  referential_integrity (txn (connect drake_server))
  /\ referential_integrity
       (txn (snd (for_each_row (Csv.reader drake_lines) (connect drake_server)))).
Proof.
  assert (R : referential_integrity (txn (connect drake_server))).
  { split; simpl.
    - intros s [<-|[]]. exists (mk_Artist 1 "Drake"). simpl. auto.
    - intros h []. }
  split; [exact R|].
  apply (X11_references_stay_whole (Csv.reader drake_lines)
           (connect drake_server)).
  exact R.
Defined.

(** ** The timestamp format *)

Section Timestamp.

Lemma exactly_eq (c a : ascii) : exactly c a = true -> a = c.
Proof. unfold exactly. intros H. apply Ascii.eqb_eq in H. auto. Qed.

Lemma in_range_bounds (lo hi c : ascii) :
  in_range lo hi c = true -> code lo <= code c <= code hi.
Proof.
  unfold in_range. rewrite andb_true_iff, !Z.leb_le. tauto.
Qed.

Lemma is_digit_bounds (c : ascii) :
  is_digit c = true -> 0 <= digit_value c <= 9.
Proof.
  unfold is_digit, digit_value. rewrite andb_true_iff, !Z.leb_le. lia.
Qed.

(** *** Results of the combinators *)

Lemma one_sound {A} (Q : A -> Prop) (ok : ascii -> bool)
    (k : ascii -> matcher A) :
  (forall c, ok c = true -> sound Q (k c)) -> sound Q (one ok k).
Proof.
  intros K [|c s] r; simpl; [discriminate|].
  destruct (ok c) eqn:O; [|discriminate]. apply (K c O).
Qed.

Lemma two_sound {A} (Q : A -> Prop) (ok1 ok2 : ascii -> bool)
    (k : Z -> matcher A) :
  (forall a b, ok1 a = true -> ok2 b = true ->
               sound Q (k (10 * digit_value a + digit_value b))) ->
  sound Q (two ok1 ok2 k).
Proof.
  intros K. unfold two. apply one_sound. intros a Oa.
  apply one_sound. intros b Ob. apply K; assumption.
Qed.

Lemma orelse_sound {A} (Q : A -> Prop) (p q : matcher A) :
  sound Q p -> sound Q q -> sound Q (orelse p q).
Proof.
  intros P R s r. unfold orelse.
  destruct (p s) as [x|] eqn:E.
  - intros H. inversion H. subst. apply (P s). exact E.
  - apply R.
Qed.

Lemma first_of_sound {A} (Q : A -> Prop) (ps : list (matcher A)) :
  Forall (sound Q) ps -> sound Q (first_of ps).
Proof.
  induction 1 as [|p ps P _ IH]; simpl.
  - intros s r. discriminate.
  - apply orelse_sound; assumption.
Qed.

Lemma lit_sound {A} (Q : A -> Prop) (c : ascii) (k : matcher A) :
  sound Q k -> sound Q (lit c k).
Proof. intros K. unfold lit. apply one_sound. intros _ _. exact K. Qed.

Lemma word_sound {A} (Q : A -> Prop) (w : string) (k : matcher A) :
  sound Q k -> sound Q (word w k).
Proof.
  intros K. induction w as [|c w IH]; simpl; [exact K|].
  apply lit_sound. exact IH.
Qed.

Lemma spaces0_sound {A} (Q : A -> Prop) (k : matcher A) :
  sound Q k -> sound Q (spaces0 k).
Proof.
  intros K s. induction s as [|c s IH]; intros r; simpl.
  - apply K.
  - destruct (is_space c); [|apply K].
    destruct (spaces0 k s) as [x|] eqn:E.
    + intros H. inversion H. subst. apply IH. reflexivity.
    + apply K.
Qed.

Lemma spaces1_sound {A} (Q : A -> Prop) (k : matcher A) :
  sound Q k -> sound Q (spaces1 k).
Proof.
  intros K. unfold spaces1. apply one_sound. intros _ _.
  apply spaces0_sound. exact K.
Qed.

Lemma directive_B_sound {A} (Q : A -> Prop) (k : Z -> matcher A) :
  (forall v, sound Q (k v)) -> sound Q (directive_B k).
Proof.
  intros K. unfold directive_B. generalize 1. generalize month_names.
  induction l as [|w l IH]; intros n; simpl.
  - intros s r. discriminate.
  - apply orelse_sound; [apply word_sound, K|apply IH].
Qed.

Lemma directive_d_sound {A} (Q : A -> Prop) (k : Z -> matcher A) :
  (forall v, sound Q (k v)) -> sound Q (directive_d k).
Proof.
  intros K. unfold directive_d. apply first_of_sound.
  repeat constructor;
    try (apply two_sound; intros; apply K);
    try (apply one_sound; intros; apply K).
  apply lit_sound, one_sound. intros. apply K.
Qed.

Lemma directive_Y_sound {A} (Q : A -> Prop) (k : Z -> matcher A) :
  (forall v, sound Q (k v)) -> sound Q (directive_Y k).
Proof.
  intros K. unfold directive_Y.
  apply two_sound. intros. apply two_sound. intros. apply K.
Qed.

(** [%I] captures 1 to 12. *)
Lemma directive_I_sound {A} (Q : A -> Prop) (k : Z -> matcher A) :
  (forall v, 1 <= v <= 12 -> sound Q (k v)) -> sound Q (directive_I k).
Proof.
  intros K. unfold directive_I. apply first_of_sound.
  repeat constructor.
  - apply two_sound. intros a b Ha Hb. apply K.
    apply exactly_eq in Ha. subst a. apply in_range_bounds in Hb.
    unfold digit_value. change (code "0") with 48 in *.
    change (code "1") with 49 in *. change (code "2") with 50 in *. lia.
  - apply two_sound. intros a b Ha Hb. apply K.
    apply exactly_eq in Ha. subst a. apply in_range_bounds in Hb.
    unfold digit_value. change (code "0") with 48 in *.
    change (code "1") with 49 in *. change (code "9") with 57 in *. lia.
  - apply one_sound. intros a Ha. apply K.
    apply in_range_bounds in Ha. unfold digit_value.
    change (code "1") with 49 in *. change (code "9") with 57 in *. lia.
  - apply lit_sound, one_sound. intros a Ha. apply K.
    apply in_range_bounds in Ha. unfold digit_value.
    change (code "1") with 49 in *. change (code "9") with 57 in *. lia.
Qed.

(** [%M] captures 0 to 59. *)
Lemma directive_M_sound {A} (Q : A -> Prop) (k : Z -> matcher A) :
  (forall v, 0 <= v <= 59 -> sound Q (k v)) -> sound Q (directive_M k).
Proof.
  intros K. unfold directive_M. apply first_of_sound.
  repeat constructor.
  - apply two_sound. intros a b Ha Hb. apply K.
    apply in_range_bounds in Ha. apply is_digit_bounds in Hb.
    unfold digit_value in *.
    change (code "0") with 48 in *. change (code "5") with 53 in *. lia.
  - apply one_sound. intros a Ha. apply K.
    apply is_digit_bounds in Ha. lia.
Qed.

Lemma directive_p_sound {A} (Q : A -> Prop) (k : bool -> matcher A) :
  (forall v, sound Q (k v)) -> sound Q (directive_p k).
Proof.
  intros K. unfold directive_p.
  apply orelse_sound; apply word_sound; apply K.
Qed.

Lemma regex_match_clock (data_string : string) (r : found * string) :
  regex_match data_string = Some r -> clock_fields r.
Proof.
  revert data_string r. change (sound clock_fields
    (format_regex (fun f rest => Some (f, rest)))).
  unfold format_regex.
  apply directive_B_sound. intros B.
  apply spaces1_sound, directive_d_sound. intros d.
  apply lit_sound, spaces1_sound, directive_Y_sound. intros Y.
  apply spaces1_sound, word_sound, spaces1_sound, directive_I_sound.
  intros I HI.
  apply lit_sound, directive_M_sound. intros M HM.
  apply directive_p_sound. intros p s r H.
  inversion H. subst. split; simpl; assumption.
Qed.

End Timestamp.

(** X12.  Every timestamp that the date conversion of the script accepts
    is a date of the calendar (year 1 to 9999, a month, a day that this
    month has in this year) and a time of the 24-hour clock with zero
    seconds. *)
Theorem X12_converted_date_is_valid (date_time_str : string) (d : datetime) :
  convert_date date_time_str = Ok d ->
  1 <= year d <= 9999
  /\ 1 <= month d <= 12
  /\ 1 <= day d <= days_in_month (year d) (month d)
  /\ 0 <= hour d <= 23
  /\ 0 <= minute d <= 59
  /\ second d = 0.
Proof.
  unfold convert_date, strptime.
  destruct (regex_match date_time_str) as [[f rest]|] eqn:R; [|discriminate].
  destruct rest; [|discriminate].
  destruct (valid_date (found_Y f) (found_B f) (found_d f)) eqn:V;
    [|discriminate].
  intros H. inversion H. subst d. clear H. simpl.
  apply regex_match_clock in R. destruct R as [HI HM]. simpl in HI, HM.
  unfold valid_date in V. rewrite !andb_true_iff, !Z.leb_le in V.
  repeat split; try lia.
  - unfold hour24.
    destruct (found_p f); destruct (found_I f =? 12) eqn:E; lia.
  - unfold hour24.
    destruct (found_p f); destruct (found_I f =? 12) eqn:E;
      try apply Z.eqb_neq in E; lia.
Qed.

Lemma X12_converted_date_is_valid_witness :
  let d := mk_datetime 2024 1 5 15 45 0 in
  1 <= year d <= 9999
  /\ 1 <= month d <= 12
  /\ 1 <= day d <= days_in_month (year d) (month d)
  /\ 0 <= hour d <= 23
  /\ 0 <= minute d <= 59
  /\ second d = 0.
Proof.
  apply (X12_converted_date_is_valid "January 5, 2024 at 3:45PM").
  vm_compute. reflexivity.
Defined.

(** ** A file without quotes *)

Section Unquoted.

Import Csv.

















End Unquoted.

Section UnquotedFile.

Import Csv.




End UnquotedFile.



(** ** Whole files of quoted and bare fields *)

Section WholeFile.

Import Csv.

Lemma start_of_record_char (c : ascii) (rest : string) :
  is_newline c = false ->
  parse_line new_reader (String c rest)
  = parse_line (mk_Reader START_FIELD [] EmptyString) (String c rest).
Proof.
  intros N. simpl. unfold parse_process_char. simpl. rewrite N. reflexivity.
Qed.

Lemma render_first_char (f : written_field) (rest : string) :
  field_ok f = true ->
  f <> Bare EmptyString ->
  exists c tail, (render f ++ rest)%string = String c tail
                 /\ is_newline c = false.
Proof.
  intros OK NE. destruct (field_ok_inv f OK) as [_ B].
  destruct f as [body|[|c body]].
  - exists quotechar. eexists. split; [reflexivity|reflexivity].
  - contradiction NE. reflexivity.
  - simpl in B. apply andb_true_iff in B. destruct B as [C _].
    destruct (bare_char_inv c C) as (N & _).
    exists c. eexists. split; [reflexivity|exact N].
Qed.

Lemma line_first_char (fs : list written_field) (terminated : bool) :
  record_ok fs = true ->
  exists c tail, (join fs ++ line_end terminated)%string = String c tail
                 /\ is_newline c = false.
Proof.
  unfold record_ok. intros OK. apply andb_true_iff in OK.
  destruct OK as [OK NB].
  destruct fs as [|f [|g more]]; [discriminate| |].
  - simpl in OK. rewrite andb_true_r in OK.
    apply render_first_char; [exact OK|].
    intros ->. discriminate.
  - change (join (f :: g :: more))
      with (render f ++ String delimiter (join (g :: more)))%string.
    rewrite str_app_assoc.
    destruct f as [body|[|c body]].
    + exists quotechar. eexists. split; reflexivity.
    + exists delimiter. eexists. split; reflexivity.
    + apply render_first_char; [|discriminate].
      simpl in OK. apply andb_true_iff in OK. tauto.
Qed.

(** One line of a record brings the reader from the start of a record to
    the start of the next, with the texts of the fields saved. *)
Lemma parse_record_line (fs : list written_field) (terminated : bool) :
  record_ok fs = true ->
  parse_line new_reader (join fs ++ line_end terminated)
  = Some (mk_Reader START_RECORD (map field_text fs) EmptyString).
Proof.
  intros OK.
  destruct (line_first_char fs terminated OK) as (c & tail & E & N).
  rewrite E, (start_of_record_char c tail N), <- E.
  unfold record_ok in OK. apply andb_true_iff in OK. destruct OK as [OK NB].
  destruct fs as [|f more]; [discriminate|].
  apply (fields_then_end f more [] terminated OK).
Qed.

Lemma reader_records (rows : list (list written_field * bool)) :
  forallb (fun r => record_ok (fst r)) rows = true ->
  reader (map write_line rows)
  = map (fun r => inr (map field_text (fst r))) rows.
Proof.
  unfold reader. induction rows as [|[fs t] rows IH]; intros OK.
  - reflexivity.
  - simpl in OK. apply andb_true_iff in OK. destruct OK as [OKr OK].
    simpl. unfold write_line at 1. simpl fst. simpl snd.
    rewrite (parse_record_line fs t OKr). simpl.
    f_equal. apply IH. exact OK.
Qed.

End WholeFile.

(** X14.  Reading back what was written: for a file whose lines each hold
    one record of quoted and bare fields (any number of fields, commas
    inside the quotes, the line feed present or not), the reader yields
    exactly these records, in the order of the lines, each field with the
    text between its quotes. *)
Theorem X14_reader_reads_back_records
    (rows : list (list written_field * bool)) :
  forallb (fun r => record_ok (fst r)) rows = true ->
  Csv.reader (map write_line rows)
  = map (fun r => inr (map field_text (fst r))) rows.
Proof. apply reader_records. Qed.

Lemma X14_reader_reads_back_records_witness :
  Csv.reader
    [(quoted "January 5, 2024 at 3:45PM" ++ ",Song A,,abc123,"
      ++ quoted "http://link" ++ newline)%string;
     quoted "Hello, World"]
  = [inr ["January 5, 2024 at 3:45PM"; "Song A"; ""; "abc123"; "http://link"];
     inr ["Hello, World"]].
Proof.
  apply (X14_reader_reads_back_records
           [([Quoted "January 5, 2024 at 3:45PM"; Bare "Song A";
              Bare EmptyString; Bare "abc123"; Quoted "http://link"], true);
            ([Quoted "Hello, World"], false)]).
  vm_compute. reflexivity.
Defined.

(** ** Rows that are turned away, and names that differ *)

Section Rejected.

Lemma find_app_some {A} (f : A -> bool) (l l' : list A) (x : A) :
  find f l = Some x -> find f (l ++ l') = Some x.
Proof.
  induction l as [|y l IH]; simpl; [discriminate|].
  destruct (f y); [auto|exact IH].
Qed.

Lemma artist_block_finds (name : string) (p p1 : Process) (v : value) :
  insert_artist_if_not_exists name p = (Ok v, p1) ->
  exists a,
    v = VInt (artist_id a)
    /\ find (by_name name) (artists (txn p1)) = Some a
    /\ artist_name a = name.
Proof.
  rewrite artist_block.
  destruct (handles_open p) eqn:H; [|discriminate].
  destruct (has_nul name); [discriminate|].
  destruct (txn_failed p); [discriminate|].
  destruct (find (by_name name) (artists (txn p))) as [a|] eqn:F;
    cbv zeta; [|destruct (artist_insertable _ _); [|discriminate]];
    intros E; inversion E; subst; clear E.
  - exists a. repeat split; [exact F|].
    apply by_name_exact. apply (find_some _ _ F).
  - exists (mk_Artist (artists_id_seq (server p) + 1) name).
    split; [reflexivity|]. split; [|reflexivity].
    simpl. apply find_last; [exact F|]. apply by_name_exact. reflexivity.
Qed.

Lemma artist_block_keeps_found (name other : string) (p : Process) (a : Artist) :
  find (by_name other) (artists (txn p)) = Some a ->
  find (by_name other)
       (artists (txn (snd (insert_artist_if_not_exists name p)))) = Some a.
Proof.
  intros F. rewrite artist_block.
  destruct (handles_open p); [|exact F].
  destruct (has_nul name); [exact F|].
  destruct (txn_failed p); [exact F|].
  destruct (find (by_name name) (artists (txn p))); [exact F|].
  cbv zeta. destruct (artist_insertable _ _); [|exact F].
  simpl. apply find_app_some. exact F.
Qed.

End Rejected.

(** X15.  A record that is turned away for its number of fields or for its
    timestamp leaves no trace: the loop body raises before any statement
    is sent to the database, and the state of the process is the one it
    started from. *)
Theorem X15_rejected_row_leaves_no_trace (row : list string) (p : Process) :
  exception_of_row row <> DatabaseError ->
  process_row row p = (Raise (exception_of_row row), p).
Proof.
  unfold exception_of_row. intros NE.
  destruct (unpack row) as [[[[[ts sn] an] sid] lk]|e] eqn:U.
  - destruct (strptime ts) as [d|] eqn:D; [contradiction NE; reflexivity|].
    apply (process_row_bad_date row p ts sn an sid lk U D).
  - rewrite process_row_eq, U. reflexivity.
Qed.

Lemma X15_rejected_row_leaves_no_trace_witness :
  exception_of_row ["2024-01-05 15:45"; "Song A"; "Artist X"; "abc123";
                    "http://link"] <> DatabaseError
  /\ process_row ["2024-01-05 15:45"; "Song A"; "Artist X"; "abc123";
                  "http://link"] (connect drake_server)
     = (Raise DateParseError, connect drake_server).
Proof.
  assert (NE : exception_of_row ["2024-01-05 15:45"; "Song A"; "Artist X";
                                 "abc123"; "http://link"] <> DatabaseError).
  { vm_compute. discriminate. }
  split; [exact NE|].
  apply (X15_rejected_row_leaves_no_trace
           ["2024-01-05 15:45"; "Song A"; "Artist X"; "abc123"; "http://link"]
           (connect drake_server) NE).
Defined.

(** X16.  The artist block tells names apart by exact comparison: run for
    two names that differ, be it in the case of one letter only, it leaves
    the two names with two different artists, each bearing its name. *)
Theorem X16_different_names_different_artists
    (a b : string) (p p1 p2 : Process) (va vb : value) :
  a <> b ->
  insert_artist_if_not_exists a p = (Ok va, p1) ->
  insert_artist_if_not_exists b p1 = (Ok vb, p2) ->
  exists ra rb,
    find (by_name a) (artists (txn p2)) = Some ra
    /\ find (by_name b) (artists (txn p2)) = Some rb
    /\ va = VInt (artist_id ra) /\ vb = VInt (artist_id rb)
    /\ artist_name ra = a /\ artist_name rb = b
    /\ ra <> rb.
Proof.
  intros D A B.
  destruct (artist_block_finds _ _ _ _ A) as (ra & Va & Fa & Na).
  destruct (artist_block_finds _ _ _ _ B) as (rb & Vb & Fb & Nb).
  pose proof (artist_block_keeps_found b a p1 ra Fa) as K.
  rewrite B in K. simpl in K.
  exists ra, rb. repeat split; try assumption.
  intros E. apply D. rewrite <- Na, <- Nb, E. reflexivity.
Qed.

Lemma X16_different_names_different_artists_witness :
  exists ra rb,
    find (by_name "Drake")
         (artists (txn (add_artist (mk_Artist 2 "drake") (connect drake_server))))
    = Some ra
    /\ find (by_name "drake")
            (artists (txn (add_artist (mk_Artist 2 "drake")
                                      (connect drake_server))))
       = Some rb
    /\ VInt 1 = VInt (artist_id ra) /\ VInt 2 = VInt (artist_id rb)
    /\ artist_name ra = "Drake" /\ artist_name rb = "drake"
    /\ ra <> rb.
Proof.
  apply (X16_different_names_different_artists "Drake" "drake"
           (connect drake_server) (connect drake_server)).
  - discriminate.
  - vm_compute. reflexivity.
  - vm_compute. reflexivity.
Defined.

(** ** A line of quoted and bare fields anywhere in the file *)

Section AnyLine.

Import Csv.

Lemma iterate_app (before rest : list string) (r r' : Reader) :
  feed r before = Some r' ->
  pending_at_end r' = false ->
  iterate r (before ++ rest) = (iterate r before ++ iterate r' rest)%list.
Proof.
  revert r. induction before as [|line before IH]; intros r F P.
  - simpl in F. inversion F. subst r'. simpl.
    unfold pending_at_end in P. rewrite P. reflexivity.
  - simpl in *.
    destruct (parse_line r line) as [r1|]; [|discriminate].
    destruct (state r1); try (apply IH; assumption).
    simpl. f_equal. apply IH; assumption.
Qed.

Lemma starts_a_record_feed (before : list string) :
  starts_a_record before = true -> feed new_reader before = Some new_reader.
Proof.
  unfold starts_a_record.
  destruct (feed new_reader before) as [[[] [|f fs] [|c fld]]|];
    try discriminate. reflexivity.
Qed.

Lemma reader_line_in_file (before after : list string)
    (fs : list written_field) (terminated : bool) :
  starts_a_record before = true ->
  record_ok fs = true ->
  reader (before ++ (join fs ++ line_end terminated)%string :: after)
  = (reader before ++ inr (map field_text fs) :: reader after)%list.
Proof.
  intros B OK. unfold reader.
  rewrite (iterate_app before _ new_reader new_reader
             (starts_a_record_feed before B) eq_refl).
  f_equal. simpl. rewrite (parse_record_line fs terminated OK). reflexivity.
Qed.

End AnyLine.

(** C10 (the code departs from the claim in its last part).  Wherever in
    the file a line stands that starts a record and holds five fields, each
    either in double quotes (any characters but the quote, commas included)
    or bare: the csv reader yields for it one record whose five fields are
    the texts between the quotes, commas kept, after the records of the
    lines before it and before the records of the lines after it; the
    unpacking of that record goes through and binds the five names to these
    texts; and when the loop body runs on it (timestamp accepted, cursor
    and connection open, no statement failed before, no NUL in the texts,
    spotify_id not yet in the table, the server takes a new song and, if
    the artist is new, a new artist), the song INSERT puts the song name
    and the link into the transaction's table as they stood between the
    quotes.  But the value is never stored: a run on a file that starts
    with such a line is stopped by a [DatabaseError] and leaves the
    database with the rows it had. *)
Theorem C10_quoted_line_parsed_but_never_stored
    (before after : list string)
    (f1 f2 f3 f4 f5 : written_field) (terminated : bool)
    (p : Process) (date_time : datetime) (s : Server) :
  starts_a_record before = true ->
  field_ok f1 = true -> field_ok f2 = true -> field_ok f3 = true ->
  field_ok f4 = true -> field_ok f5 = true ->
  strptime (field_text f1) = Some date_time ->
  handles_open p = true ->
  txn_failed p = false ->
  has_nul (field_text f2) = false -> has_nul (field_text f3) = false ->
  has_nul (field_text f4) = false -> has_nul (field_text f5) = false ->
  find (by_spotify_id (field_text f4)) (songs (txn p)) = None ->
  artist_id_available (field_text f3) p = true ->
  song_insertable (server p) (txn p) = true ->
  let line := (join [f1; f2; f3; f4; f5] ++ line_end terminated)%string in
  let row := [field_text f1; field_text f2; field_text f3; field_text f4;
              field_text f5] in
  Csv.reader (before ++ line :: after)
  = (Csv.reader before ++ inr row :: Csv.reader after)%list
  /\ unpack row
     = Ok (field_text f1, field_text f2, field_text f3, field_text f4,
           field_text f5)
  /\ (exists artist song p1 p2,
       insert_artist_if_not_exists (field_text f3) p = (Ok (VInt artist), p1)
       /\ insert_song_if_not_exists (field_text f2) (VInt artist)
            (field_text f4) (field_text f5) p1
          = (Ok (VInt song), p2)
       /\ songs (txn p2)
          = (songs (txn p)
             ++ [mk_Song song (field_text f2) artist (field_text f4)
                         (field_text f5)])%list
       /\ process_row row p
          = insert_listening_history (VInt song) date_time p2)
  /\ raised (main (line :: after) s) = Some DatabaseError
  /\ data (server_after (main (line :: after) s)) = data s.
Proof.
  intros B O1 O2 O3 O4 O5 D H T N2 N3 N4 N5 F Aa As. cbv zeta.
  assert (OK : record_ok [f1; f2; f3; f4; f5] = true).
  { unfold record_ok. simpl. rewrite O1, O2, O3, O4, O5.
    destruct f1 as [body|[|c body]]; reflexivity. }
  split; [|split; [reflexivity|split; [|split]]].
  - apply (reader_line_in_file before after [f1; f2; f3; f4; f5] terminated B).
    exact OK.
  - destruct (artist_resolution (field_text f3) p H T N3 Aa)
      as (p1 & EA & T1 & X1 & H1 & F1 & Q1 & M1 & S1).
    assert (As1 : song_id_available (field_text f4) p1 = true).
    { unfold song_id_available, song_insertable in *.
      rewrite S1, F, Q1, M1. exact As. }
    destruct (song_resolution (field_text f2)
                (fst (spec_resolve_artist (field_text f3)
                        (artists_id_seq (server p) + 1) (txn p)))
                (field_text f4) (field_text f5) p1 X1 H1 F1 N4 N2 N5 As1)
      as (p2 & ES & T2 & _).
    unfold spec_resolve_song in ES, T2. rewrite S1, F in ES, T2.
    simpl in ES, T2.
    eexists. eexists. exists p1, p2. repeat split.
    + exact EA.
    + exact ES.
    + rewrite T2. reflexivity.
    + rewrite process_row_eq. simpl. unfold convert_date.
      rewrite D, EA, ES. reflexivity.
  - rewrite raised_main.
    pose proof (reader_line_in_file [] after [f1; f2; f3; f4; f5] terminated
                  eq_refl OK) as R.
    change (Csv.reader
              ((join [f1; f2; f3; f4; f5] ++ line_end terminated)%string
               :: after)
            = inr (map field_text [f1; f2; f3; f4; f5]) :: Csv.reader after)
      in R.
    rewrite R. simpl.
    unfold exception_of_record. simpl unpack. cbv beta iota.
    rewrite D, N3, N4, N2, N5. simpl.
    destruct (find (by_name (field_text f3)) (artists (data s)));
      [|destruct (artist_insertable s (data s))];
      try reflexivity;
      destruct (find (by_spotify_id (field_text f4)) (songs (data s)));
      reflexivity.
  - apply main_data.
Qed.

Lemma C10_quoted_line_parsed_but_never_stored_witness :
  let line :=
    (quoted "January 5, 2024 at 3:45PM" ++ "," ++ quoted "Hello, World"
     ++ ",Artist X,abc123,http://link" ++ newline)%string in
  let row := ["January 5, 2024 at 3:45PM"; "Hello, World"; "Artist X";
              "abc123"; "http://link"] in
  starts_a_record [short_line; example_line] = true
  /\ Csv.reader ([short_line; example_line] ++ line :: [iso_line])
     = (Csv.reader [short_line; example_line]
        ++ inr row :: Csv.reader [iso_line])%list
  /\ unpack row
     = Ok ("January 5, 2024 at 3:45PM", "Hello, World", "Artist X",
           "abc123", "http://link")
  /\ (exists artist song p1 p2,
       insert_artist_if_not_exists "Artist X" (opened empty_server)
       = (Ok (VInt artist), p1)
       /\ insert_song_if_not_exists "Hello, World" (VInt artist)
            "abc123" "http://link" p1
          = (Ok (VInt song), p2)
       /\ songs (txn p2)
          = (songs (txn (opened empty_server))
             ++ [mk_Song song "Hello, World" artist "abc123"
                         "http://link"])%list
       /\ process_row row (opened empty_server)
          = insert_listening_history (VInt song)
              (mk_datetime 2024 1 5 15 45 0) p2)
  /\ raised (main (line :: [iso_line]) empty_server) = Some DatabaseError
  /\ data (server_after (main (line :: [iso_line]) empty_server))
     = data empty_server.
Proof.
  cbv zeta. split; [vm_compute; reflexivity|].
  apply (C10_quoted_line_parsed_but_never_stored
           [short_line; example_line] [iso_line]
           (Quoted "January 5, 2024 at 3:45PM") (Quoted "Hello, World")
           (Bare "Artist X") (Bare "abc123") (Bare "http://link") true
           (opened empty_server) (mk_datetime 2024 1 5 15 45 0) empty_server);
    vm_compute; reflexivity.
Defined.
